(** * Deployment tracking and artifact correlation of the OpenScan Hardhat plugin

    A shallow embedding of
    - [packages/plugin/src/deployment-tracker.ts] (class [DeploymentTracker]),
    - [packages/plugin/src/artifacts.ts] ([findIgnitionDeployment],
      [loadArtifacts], [loadIgnitionArtifacts]),
    - [packages/plugin/src/server.ts] (the [artifactLoader] closure),
    - [packages/plugin/src/services/webapp.ts] ([injectArtifactsScript]),
    followed by the properties of the specification that concern them.

    Conventions of the model.
    - A JavaScript string is a [string]; its characters are 8-bit code
      units, so [toLowerCase] is the ASCII one (hexadecimal data, addresses
      and the markup handled here are ASCII).
    - A JavaScript object used as a dictionary ([AddressMap], the pending
      [Map]) is a [gmap] with [string] keys; property order is not tracked.
    - A call that can throw returns an [outcome].
    - The file system is a tree of directories and files rooted at the
      project root; console output is not modelled. *)

From Stdlib Require Import ZArith Ascii String List Bool Lia.
From stdpp Require Import base option list strings gmap fin_maps pretty.

Set Warnings "-register-all".
Local Open Scope nat_scope.

(** ** JavaScript strings *)

Module Str.

(** [String.prototype.toLowerCase] on one 8-bit code unit. *)
Definition lower_char (c : ascii) : ascii :=
  let n := N_of_ascii c in
  if ((65 <=? n) && (n <=? 90))%N then ascii_of_N (n + 32) else c.

(** [s.toLowerCase()] *)
Fixpoint toLowerCase (s : string) : string :=
  match s with
  | EmptyString => EmptyString
  | String c s' => String (lower_char c) (toLowerCase s')
  end.

(** [s.startsWith(p)] *)
Fixpoint startsWith (s p : string) {struct p} : bool :=
  match p with
  | EmptyString => true
  | String b p' =>
      match s with
      | EmptyString => false
      | String a s' => if Ascii.eqb a b then startsWith s' p' else false
      end
  end.

(** [s.endsWith(p)] *)
Definition endsWith (s p : string) : bool :=
  startsWith (String.rev s) (String.rev p).

(** [s.slice(n)] for [0 <= n] *)
Fixpoint drop (n : nat) (s : string) : string :=
  match n, s with
  | O, _ => s
  | S _, EmptyString => EmptyString
  | S k, String _ s' => drop k s'
  end.

(** [s.split(sep)] for a one-character separator: never the empty list. *)
Fixpoint split (sep : ascii) (s : string) : list string :=
  match s with
  | EmptyString => [EmptyString]
  | String c s' =>
      if Ascii.eqb c sep then EmptyString :: split sep s'
      else match split sep s' with
           | [] => [String c EmptyString]
           | w :: ws => String c w :: ws
           end
  end.

(** Does [p] occur in [s] (as a contiguous substring)? *)
Fixpoint includes (s p : string) : bool :=
  startsWith s p ||
  match s with
  | EmptyString => false
  | String _ s' => includes s' p
  end.

(** Number of positions of [s] at which [p] starts. *)
Fixpoint occurrences (s p : string) : nat :=
  (if startsWith s p then 1 else 0) +
  match s with
  | EmptyString => 0
  | String _ s' => occurrences s' p
  end.

(** Does [p] start [s] when letter case is ignored?  This is how a
    regular expression with the [i] flag compares a literal. *)
Fixpoint startsWith_ci (s p : string) {struct p} : bool :=
  match p with
  | EmptyString => true
  | String b p' =>
      match s with
      | EmptyString => false
      | String a s' =>
          if Ascii.eqb (lower_char a) (lower_char b) then startsWith_ci s' p' else false
      end
  end.

(** [s.replace(/pat/gi, rep)] for a literal, non-empty [pat] and a
    replacement [rep] without ["$"]: the matches are found from left to
    right and do not overlap; [skip] counts the characters of the current
    match still to be passed over. *)
Fixpoint replaceAll_ci_from (pat rep : string) (skip : nat) (s : string) : string :=
  match s with
  | EmptyString => EmptyString
  | String c s' =>
      match skip with
      | S k => replaceAll_ci_from pat rep k s'
      | O =>
          if startsWith_ci s pat
          then rep +:+ replaceAll_ci_from pat rep (String.length pat - 1) s'
          else String c (replaceAll_ci_from pat rep 0 s')
      end
  end.

Definition replaceAll_ci (pat rep s : string) : string :=
  replaceAll_ci_from pat rep 0 s.

(** The first occurrence of [pat] in [s]: the text before it and the
    text after it. *)
Fixpoint find_first (s pat : string) : option (string * string) :=
  if startsWith s pat then Some (EmptyString, drop (String.length pat) s)
  else match s with
       | EmptyString => None
       | String c s' =>
           match find_first s' pat with
           | Some (before, after) => Some (String c before, after)
           | None => None
           end
       end.

(** [GetSubstitution] of ECMAScript for a string pattern (no capture
    groups): in the replacement text ["$$"] stands for ["$"], ["$&"] for
    the matched text, ["$`"] for the text before the match and ["$'"] for
    the text after it; any other ["$"] stands for itself. *)
Fixpoint substitute (matched before after replacement : string) : string :=
  match replacement with
  | EmptyString => EmptyString
  | String c rest =>
      if Ascii.eqb c "$" then
        match rest with
        | EmptyString => String c EmptyString
        | String d rest' =>
            if Ascii.eqb d "$" then String "$" (substitute matched before after rest')
            else if Ascii.eqb d "&" then matched +:+ substitute matched before after rest'
            else if Ascii.eqb d "`" then before +:+ substitute matched before after rest'
            else if Ascii.eqb d "'" then after +:+ substitute matched before after rest'
            else String c (substitute matched before after rest)
        end
      else String c (substitute matched before after rest)
  end.

(** [s.replace(pat, replacement)] for strings [pat] and [replacement]:
    only the first occurrence is replaced. *)
Definition replace (s pat replacement : string) : string :=
  match find_first s pat with
  | None => s
  | Some (before, after) =>
      before +:+ substitute pat before after replacement +:+ after
  end.

End Str.

(** ** JSON values and [JSON.stringify] *)

(** A value produced by [JSON.parse]: what the TypeScript code sees as
    [unknown].  Numbers are the integers; an object lists its own
    properties. *)
Inductive json : Type :=
  | JNull
  | JBool (b : bool)
  | JNum (n : Z)
  | JStr (s : string)
  | JArr (items : list json)
  | JObj (props : list (string * json)).

Module Json.

(** [o.k] on a parsed value that is not [null]: [None] is [undefined]. *)
Fixpoint assoc (k : string) (props : list (string * json)) : option json :=
  match props with
  | [] => None
  | (k', v) :: rest => if String.eqb k k' then Some v else assoc k rest
  end.

Definition get (k : string) (j : json) : option json :=
  match j with
  | JObj props => assoc k props
  | _ => None
  end.

(** JavaScript truthiness of a property read ([None] is [undefined]). *)
Definition truthy (v : option json) : bool :=
  match v with
  | None | Some JNull => false
  | Some (JBool b) => b
  | Some (JNum n) => negb (Z.eqb n 0)
  | Some (JStr s) => negb (String.eqb s EmptyString)
  | Some (JArr _) | Some (JObj _) => true
  end.

Definition dquote : ascii := Ascii.ascii_of_nat 34.
Definition backslash : ascii := Ascii.ascii_of_nat 92.

Definition hex_digit (n : N) : ascii :=
  if (n <? 10)%N then ascii_of_N (48 + n) else ascii_of_N (87 + n).

(** The escape of one code unit inside a JSON string literal. *)
Definition escape_char (c : ascii) : string :=
  let n := N_of_ascii c in
  if Ascii.eqb c dquote then String backslash (String dquote EmptyString)
  else if Ascii.eqb c backslash then String backslash (String backslash EmptyString)
  else if (n =? 8)%N then String backslash "b"
  else if (n =? 9)%N then String backslash "t"
  else if (n =? 10)%N then String backslash "n"
  else if (n =? 12)%N then String backslash "f"
  else if (n =? 13)%N then String backslash "r"
  else if (n <? 32)%N then
    String backslash
      (String "u" (String "0" (String "0"
        (String (hex_digit (n / 16)) (String (hex_digit (n mod 16)) EmptyString)))))
  else String c EmptyString.

Fixpoint quote_body (s : string) : string :=
  match s with
  | EmptyString => EmptyString
  | String c s' => escape_char c +:+ quote_body s'
  end.

(** [JSON.stringify(s)] for a string [s]. *)
Definition quote (s : string) : string :=
  String dquote (quote_body s +:+ String dquote EmptyString).

(** [JSON.stringify(j)] (no indentation). *)
Fixpoint stringify (j : json) : string :=
  match j with
  | JNull => "null"
  | JBool true => "true"
  | JBool false => "false"
  | JNum n => pretty n
  | JStr s => quote s
  | JArr items => "[" +:+ String.concat "," (List.map stringify items) +:+ "]"
  | JObj props =>
      "{" +:+ String.concat ","
                (List.map (fun '(k, v) => quote k +:+ ":" +:+ stringify v) props)
          +:+ "}"
  end.

End Json.

(** ** Outcomes of calls that can throw *)

Inductive outcome (A : Type) : Type :=
  | Ok (a : A)
  | Throws.
Arguments Ok {A} a.
Arguments Throws {A}.

Definition obind {A B} (m : outcome A) (f : A -> outcome B) : outcome B :=
  match m with
  | Ok a => f a
  | Throws => Throws
  end.

(** [try { ... } catch { }]: the value, if any. *)
Definition caught {A} (m : outcome A) : option A :=
  match m with
  | Ok a => Some a
  | Throws => None
  end.

(** ** The file system under the project root *)

(** A file carries its text, or [None] when it cannot be read. *)
Inductive node : Type :=
  | File (text : option string)
  | Dir (entries : list (string * node)).

Module Fs.

Fixpoint child (name : string) (entries : list (string * node)) : option node :=
  match entries with
  | [] => None
  | (n, x) :: rest => if String.eqb name n then Some x else child name rest
  end.

(** The node at a path given by its segments below [root]. *)
Fixpoint lookup (root : node) (path : list string) : option node :=
  match path with
  | [] => Some root
  | seg :: rest =>
      match root with
      | File _ => None
      | Dir entries =>
          match child seg entries with
          | Some x => lookup x rest
          | None => None
          end
      end
  end.

(** [path.join]: the segments are split at ["/"], empty and ["."]
    segments vanish and [".."] removes the segment before it.  A path
    that leaves the project root is [None]: nothing outside the root is
    modelled. *)
Fixpoint normalize (acc : list string) (segs : list string) : option (list string) :=
  match segs with
  | [] => Some (rev acc)
  | seg :: rest =>
      if String.eqb seg EmptyString || String.eqb seg "." then normalize acc rest
      else if String.eqb seg ".." then
        match acc with
        | [] => None
        | _ :: acc' => normalize acc' rest
        end
      else normalize (seg :: acc) rest
  end.

Definition join (parts : list string) : option (list string) :=
  normalize [] (List.concat (List.map (Str.split "/") parts)).

Definition at_path (root : node) (parts : list string) : option node :=
  match join parts with
  | Some p => lookup root p
  | None => None
  end.

(** [existsSync(path.join(projectRoot, ...parts))] *)
Definition existsSync (root : node) (parts : list string) : bool :=
  match at_path root parts with
  | Some _ => true
  | None => false
  end.

(** [readFileSync(path.join(projectRoot, ...parts), "utf-8")] *)
Definition readFileSync (root : node) (parts : list string) : outcome string :=
  match at_path root parts with
  | Some (File (Some text)) => Ok text
  | _ => Throws
  end.

(** [readdirSync(path.join(projectRoot, ...parts))], with the nodes. *)
Definition readdirSync (root : node) (parts : list string)
  : outcome (list (string * node)) :=
  match at_path root parts with
  | Some (Dir entries) => Ok entries
  | _ => Throws
  end.

End Fs.

(** ** Data model ([artifacts.ts], [deployment-tracker.ts]) *)

(** [interface CompiledArtifact] *)
Module CompiledArtifact.
Record t : Type := mk {
  contractName : string;
  sourceName : string;
  abi : json;
  bytecode : string;
  buildInfoId : option string
}.
End CompiledArtifact.

(** [interface ArtifactData]; an optional property is an [option]. *)
Module ArtifactData.
Record t : Type := mk {
  abi : json;
  contractName : string;
  sourceName : option string;
  buildInfoId : option string;
  sourceCode : option string;
  buildInfo : option json;
  deployments : list string
}.

Definition optional (k : string) (v : option json) : list (string * json) :=
  match v with
  | Some j => [(k, j)]
  | None => []
  end.

(** The record as [JSON.stringify] traverses it: [undefined] properties
    are left out. *)
Definition to_json (d : t) : json :=
  JObj ([("abi", abi d); ("contractName", JStr (contractName d))]
        ++ optional "sourceName" (JStr <$> sourceName d)
        ++ optional "buildInfoId" (JStr <$> buildInfoId d)
        ++ [("deployments", JArr (List.map JStr (deployments d)))]
        ++ optional "sourceCode" (JStr <$> sourceCode d)
        ++ optional "buildInfo" (buildInfo d)).
End ArtifactData.

(** [type AddressMap = Record<string, ArtifactData>] *)
Abbreviation AddressMap := (gmap string ArtifactData.t).

(** [JSON.stringify(artifacts)] for an [AddressMap]. *)
Definition stringify_AddressMap (m : AddressMap) : string :=
  Json.stringify
    (JObj (List.map (fun '(k, d) => (k, ArtifactData.to_json d)) (map_to_list m))).

(** [x as string] is unchecked.  A JSON string is the string itself; the
    declared types are taken as the contract for anything else, which is
    stood for by its JSON text. *)
Definition as_string (v : json) : string :=
  match v with
  | JStr s => s
  | _ => Json.stringify v
  end.

(** [x as string | undefined] *)
Definition as_optional_string (v : option json) : option string :=
  match v with
  | None | Some JNull => None
  | Some j => Some (as_string j)
  end.

(** [const CHAIN_ID = 31337], as it appears in [`chain-${CHAIN_ID}`]. *)
Definition CHAIN_ID : Z := 31337.

Section Program.

(** [JSON.parse]: [None] when it throws a [SyntaxError]. *)
Variable JSON_parse : string -> option json.

(** [JSON.parse(readFileSync(path, "utf-8"))] *)
Definition read_json (root : node) (parts : list string) : outcome json :=
  obind (Fs.readFileSync root parts) (fun text =>
    match JSON_parse text with
    | Some j => Ok j
    | None => Throws
    end).

(** *** [class DeploymentTracker] *)

(** The body of the [try] block of [scanDir]: the artifact pushed for a
    file with the given text, if any. *)
Definition parseCompiledArtifact (text : option string) : option CompiledArtifact.t :=
  match text with
  | None => None
  | Some txt =>
      match JSON_parse txt with
      | None => None
      | Some content =>
          if Json.truthy (Json.get "contractName" content)
             && Json.truthy (Json.get "abi" content)
             && Json.truthy (Json.get "bytecode" content)
          then
            Some {| CompiledArtifact.contractName :=
                      from_option as_string EmptyString (Json.get "contractName" content);
                    CompiledArtifact.sourceName :=
                      from_option id EmptyString (as_optional_string (Json.get "sourceName" content));
                    CompiledArtifact.abi :=
                      from_option id JNull (Json.get "abi" content);
                    CompiledArtifact.bytecode :=
                      from_option as_string EmptyString (Json.get "bytecode" content);
                    CompiledArtifact.buildInfoId :=
                      as_optional_string (Json.get "buildInfoId" content) |}
          else None
      end
  end.

(** One iteration of the loop of [scanDir] on the entry [entry], whose
    node is [x]; [acc] is [this.compiledArtifacts]. *)
Fixpoint scanEntry (entry : string) (x : node) (acc : list CompiledArtifact.t)
  {struct x} : list CompiledArtifact.t :=
  match x with
  | Dir entries =>
      fold_left (fun acc '(e, y) => scanEntry e y acc) entries acc
  | File text =>
      if Str.endsWith entry ".json" then
        match parseCompiledArtifact text with
        | Some a => acc ++ [a]
        | None => acc
        end
      else acc
  end.

(** [scanDir(dir)], on the entries that [readdirSync(dir)] lists. *)
Definition scanDir (entries : list (string * node)) (acc : list CompiledArtifact.t)
  : list CompiledArtifact.t :=
  fold_left (fun acc '(e, y) => scanEntry e y acc) entries acc.

(** [loadCompiledArtifacts()] *)
Definition loadCompiledArtifacts (root : node) : outcome (list CompiledArtifact.t) :=
  if Fs.existsSync root ["artifacts"; "contracts"] then
    obind (Fs.readdirSync root ["artifacts"; "contracts"]) (fun entries =>
      Ok (scanDir entries []))
  else Ok [].

Record DeploymentTracker : Type := mkTracker {
  compiledArtifacts : list CompiledArtifact.t;
  trackedDeployments : AddressMap;
  pendingTxs : gmap string string
}.

(** [new DeploymentTracker(projectRoot)] *)
Definition newDeploymentTracker (root : node) : outcome DeploymentTracker :=
  obind (loadCompiledArtifacts root) (fun arts =>
    Ok {| compiledArtifacts := arts; trackedDeployments := ∅; pendingTxs := ∅ |}).

(** [trackSendTransaction(txHash, data)] *)
Definition trackSendTransaction (t : DeploymentTracker) (txHash data : string)
  : DeploymentTracker :=
  {| compiledArtifacts := compiledArtifacts t;
     trackedDeployments := trackedDeployments t;
     pendingTxs := <[txHash := data]> (pendingTxs t) |}.

(** [findMatchingArtifact(creationData)] over [this.compiledArtifacts]. *)
Fixpoint findMatchingArtifact (artifacts : list CompiledArtifact.t)
  (creationData : string) : option CompiledArtifact.t :=
  let normalizedData := Str.toLowerCase creationData in
  match artifacts with
  | [] => None
  | artifact :: rest =>
      let normalizedBytecode := Str.toLowerCase (CompiledArtifact.bytecode artifact) in
      if (2 <? String.length normalizedBytecode)
         && Str.startsWith normalizedData normalizedBytecode
      then Some artifact
      else findMatchingArtifact rest creationData
  end.

(** The file name [sourceName.split("/").pop()] under which the source
    of a contract is looked for in [contracts/]. *)
Definition sourceFileName (sourceName : string) : option string :=
  if String.eqb sourceName EmptyString then None
  else match last (Str.split "/" sourceName) with
       | Some f => if String.eqb f EmptyString then None else Some f
       | None => None
       end.

(** Source code of the contract, when the file exists and can be read. *)
Definition trackedSourceCode (root : node) (artifact : CompiledArtifact.t)
  : option string :=
  match sourceFileName (CompiledArtifact.sourceName artifact) with
  | Some f =>
      if Fs.existsSync root ["contracts"; f]
      then caught (Fs.readFileSync root ["contracts"; f])
      else None
  | None => None
  end.

(** Build info of the contract, when the file exists and parses. *)
Definition trackedBuildInfo (root : node) (artifact : CompiledArtifact.t)
  : option json :=
  match CompiledArtifact.buildInfoId artifact with
  | Some i =>
      if String.eqb i EmptyString then None
      else if Fs.existsSync root ["artifacts"; "build-info"; i +:+ ".json"]
      then caught (read_json root ["artifacts"; "build-info"; i +:+ ".json"])
      else None
  | None => None
  end.

(** The [ArtifactData] that [trackDeploymentReceipt] stores. *)
Definition trackedEntry (root : node) (artifact : CompiledArtifact.t)
  (contractAddress : string) : ArtifactData.t :=
  {| ArtifactData.abi := CompiledArtifact.abi artifact;
     ArtifactData.contractName := CompiledArtifact.contractName artifact;
     ArtifactData.sourceName := Some (CompiledArtifact.sourceName artifact);
     ArtifactData.buildInfoId := CompiledArtifact.buildInfoId artifact;
     ArtifactData.sourceCode := trackedSourceCode root artifact;
     ArtifactData.buildInfo := trackedBuildInfo root artifact;
     ArtifactData.deployments := [contractAddress] |}.

(** [trackDeploymentReceipt(txHash, contractAddress)] *)
Definition trackDeploymentReceipt (root : node) (t : DeploymentTracker)
  (txHash contractAddress : string) : DeploymentTracker :=
  match pendingTxs t !! txHash with
  | None => t
  | Some data =>
      if String.eqb data EmptyString then t
      else
        let pending := delete txHash (pendingTxs t) in
        match findMatchingArtifact (compiledArtifacts t) data with
        | None =>
            {| compiledArtifacts := compiledArtifacts t;
               trackedDeployments := trackedDeployments t;
               pendingTxs := pending |}
        | Some artifact =>
            {| compiledArtifacts := compiledArtifacts t;
               trackedDeployments :=
                 <[Str.toLowerCase contractAddress :=
                     trackedEntry root artifact contractAddress]>
                   (trackedDeployments t);
               pendingTxs := pending |}
        end
  end.

(** [getArtifacts()]: the bindings of a fresh object that has the own
    properties of [this.trackedDeployments]. *)
Definition getArtifacts (t : DeploymentTracker) : AddressMap :=
  trackedDeployments t.

(** *** [artifacts.ts] *)

(** The segments of [ignition/deployments/chain-31337] below the project
    root. *)
Definition deploymentPathOf : list string :=
  ["ignition"; "deployments"; "chain-" +:+ pretty CHAIN_ID].

(** [findIgnitionDeployment(projectRoot)] *)
Definition findIgnitionDeployment (root : node) : option (list string) :=
  let deploymentPath := deploymentPathOf in
  let deployedAddressesPath := deploymentPath ++ ["deployed_addresses.json"] in
  if Fs.existsSync root deployedAddressesPath then Some deploymentPath else None.

(** [Object.entries(v)] for a parsed value: it throws on [null], lists
    the properties of an object, the indexed elements of an array and the
    indexed characters of a string, and nothing for a number or boolean. *)
Fixpoint string_entries (i : nat) (s : string) : list (string * json) :=
  match s with
  | EmptyString => []
  | String c s' => (pretty i, JStr (String c EmptyString)) :: string_entries (S i) s'
  end.

Definition Object_entries (v : json) : outcome (list (string * json)) :=
  match v with
  | JNull => Throws
  | JObj props => Ok props
  | JArr items => Ok (imap (fun i x => (pretty i, x)) items)
  | JStr s => Ok (string_entries 0 s)
  | JBool _ | JNum _ => Ok []
  end.

(** The first loop of [loadArtifacts]: contract name to address, from
    the keys [module#contractName]. *)
Definition contractDeploymentsOf (entries : list (string * json)) : gmap string json :=
  fold_left
    (fun acc '(moduleContract, address) =>
       match Str.split "#" moduleContract !! 1 with
       | Some contractName =>
           if String.eqb contractName EmptyString then acc
           else <[contractName := address]> acc
       | None => acc
       end)
    entries ∅.

(** Build info of a deployment record, when the file exists and parses. *)
Definition recordBuildInfo (root : node) (deploymentPath : list string)
  (buildInfoId : option string) : option json :=
  let buildInfoDir := deploymentPath ++ ["build-info"] in
  match buildInfoId with
  | Some i =>
      if negb (String.eqb i EmptyString) && Fs.existsSync root buildInfoDir then
        if Fs.existsSync root (buildInfoDir ++ [i +:+ ".json"])
        then caught (read_json root (buildInfoDir ++ [i +:+ ".json"]))
        else None
      else None
  | None => None
  end.

(** Source code of a deployment record, when the file exists and reads. *)
Definition recordSourceCode (root : node) (sourceName : option string)
  : option string :=
  match sourceName with
  | Some n =>
      if Fs.existsSync root ["contracts"] then
        match sourceFileName n with
        | Some f =>
            if Fs.existsSync root ["contracts"; f]
            then caught (Fs.readFileSync root ["contracts"; f])
            else None
        | None => None
        end
      else None
  | None => None
  end.

(** One iteration of the second loop of [loadArtifacts], on the file
    whose node is [x]; [addressMap] is the map built so far.  Reading
    [artifact.contractName] throws when the file holds [null], and
    [deployedAddress.toLowerCase()] throws when the recorded address is
    not a string. *)
Definition loadArtifactFile (root : node) (deploymentPath : list string)
  (contractDeployments : gmap string json) (x : node) (addressMap : AddressMap)
  : outcome AddressMap :=
  let parsed :=
    match x with
    | File (Some text) => JSON_parse text
    | _ => None
    end in
  match parsed with
  | None => Ok addressMap
  | Some JNull => Throws
  | Some artifact =>
      if negb (Json.truthy (Json.get "contractName" artifact)) then Ok addressMap
      else
        let contractName := from_option as_string EmptyString (Json.get "contractName" artifact) in
        let deployedAddress := contractDeployments !! contractName in
        if negb (Json.truthy deployedAddress) then Ok addressMap
        else
          match deployedAddress with
          | Some (JStr address) =>
              let sourceName := as_optional_string (Json.get "sourceName" artifact) in
              let buildInfoId := as_optional_string (Json.get "buildInfoId" artifact) in
              let artifactData :=
                {| ArtifactData.abi :=
                     if Json.truthy (Json.get "abi" artifact)
                     then from_option id JNull (Json.get "abi" artifact)
                     else JArr [];
                   ArtifactData.contractName := contractName;
                   ArtifactData.sourceName := sourceName;
                   ArtifactData.buildInfoId := buildInfoId;
                   ArtifactData.sourceCode := recordSourceCode root sourceName;
                   ArtifactData.buildInfo := recordBuildInfo root deploymentPath buildInfoId;
                   ArtifactData.deployments := [address] |} in
              Ok (<[Str.toLowerCase address := artifactData]> addressMap)
          | _ => Throws
          end
  end.

(** [loadArtifacts(deploymentPath, projectRoot)] *)
Definition loadArtifacts (deploymentPath : list string) (root : node)
  : outcome AddressMap :=
  let deployedAddressesPath := deploymentPath ++ ["deployed_addresses.json"] in
  if negb (Fs.existsSync root deployedAddressesPath) then Ok ∅
  else
    obind (read_json root deployedAddressesPath) (fun deployedAddresses =>
    obind (Object_entries deployedAddresses) (fun entries =>
      let contractDeployments := contractDeploymentsOf entries in
      let artifactsDir := deploymentPath ++ ["artifacts"] in
      if negb (Fs.existsSync root artifactsDir) then Ok ∅
      else
        obind (Fs.readdirSync root artifactsDir) (fun listing =>
          let artifactFiles :=
            List.filter (fun '(f, _) => Str.endsWith f ".json") listing in
          fold_left
            (fun acc '(_, x) =>
               obind acc (loadArtifactFile root deploymentPath contractDeployments x))
            artifactFiles (Ok ∅)))).

(** [loadIgnitionArtifacts(projectRoot)]; [None] is [null].  The flag
    [hasLoggedArtifacts] only guards console output. *)
Definition loadIgnitionArtifacts (root : node) : outcome (option AddressMap) :=
  match findIgnitionDeployment root with
  | None => Ok None
  | Some deploymentPath =>
      obind (loadArtifacts deploymentPath root) (fun result => Ok (Some result))
  end.

(** *** [server.ts] *)

(** The closure [artifactLoader] of [createOpenscanServer(tracker)]:
    [{ ...ignitionArtifacts, ...trackedArtifacts }], or [null] when that
    object has no key. *)
Definition artifactLoader (root : node) (tracker : DeploymentTracker)
  : outcome (option AddressMap) :=
  obind (loadIgnitionArtifacts root) (fun loaded =>
    let ignitionArtifacts := default ∅ loaded in
    let trackedArtifacts := getArtifacts tracker in
    let combined : AddressMap := trackedArtifacts ∪ ignitionArtifacts in
    Ok (if 0 <? size combined then Some combined else None)).

End Program.

(** *** [services/webapp.ts] *)

Definition scriptOpen : string :=
  "<script>try{localStorage.setItem("
  +:+ String Json.dquote ("OPENSCAN_ARTIFACTS_JSON_V1" +:+ String Json.dquote ",").

Definition scriptClose : string :=
  ")}catch(e){console.warn("
  +:+ String Json.dquote ("[openscan] Failed to inject artifacts:" +:+ String Json.dquote ",e)}</script>").

(** The text [safeJsonString] of [injectArtifactsScript]: the
    double-encoded map with every [</script>] escaped. *)
Definition safeJsonStringOf (artifacts : AddressMap) : string :=
  let jsonString := Json.quote (stringify_AddressMap artifacts) in
  Str.replaceAll_ci "</script>" "<\/script>" jsonString.

(** The text [scriptTag] of [injectArtifactsScript]. *)
Definition scriptTagOf (artifacts : AddressMap) : string :=
  scriptOpen +:+ safeJsonStringOf artifacts +:+ scriptClose.

(** [injectArtifactsScript(html)].  [artifactLoader] is [None] when the
    service has no loader, and otherwise the outcome of calling it for
    this request. *)
Definition injectArtifactsScript
  (artifactLoader : option (outcome (option AddressMap))) (html : string) : string :=
  match artifactLoader with
  | None => html
  | Some Throws => html
  | Some (Ok None) => html
  | Some (Ok (Some artifacts)) =>
      if size artifacts =? 0 then html
      else Str.replace html "<body>" ("<body>" +:+ scriptTagOf artifacts)
  end.

(** ** A sample project *)

(** Concrete inputs on which the model is run in the examples below. *)
Module Sample.

(** A stand-in for [JSON.parse] that knows the texts which
    [JSON.stringify] gives for the listed values, and parses each to its
    value; every other text is a syntax error for it. *)
Definition JSON_parse_of (known : list json) (text : string) : option json :=
  List.find (fun j => String.eqb (Json.stringify j) text) known.

Definition counterJson : json :=
  JObj [("contractName", JStr "Counter");
        ("sourceName", JStr "contracts/Counter.sol");
        ("abi", JArr []);
        ("bytecode", JStr "0x6001");
        ("buildInfoId", JStr "solc-1")].

(** An interface: no code beyond the hex prefix. *)
Definition interfaceJson : json :=
  JObj [("contractName", JStr "ICounter");
        ("sourceName", JStr "contracts/ICounter.sol");
        ("abi", JArr []);
        ("bytecode", JStr "0x")].

(** Well-formed JSON with all three fields, the bytecode being empty. *)
Definition emptyBytecodeJson : json :=
  JObj [("contractName", JStr "Empty");
        ("abi", JArr []);
        ("bytecode", JStr EmptyString)].

Definition buildInfoJson : json := JObj [("solcVersion", JStr "0.8.29")].

Definition deployedAddressesJson : json :=
  JObj [("CounterModule#Counter", JStr "0xABC1")].

Definition JSON_parse : string -> option json :=
  JSON_parse_of
    [counterJson; interfaceJson; emptyBytecodeJson; buildInfoJson;
     deployedAddressesJson; JObj []].

Definition counterSource : string := "contract Counter { }".

(** [artifacts/contracts] of the sample project. *)
Definition compiledTree : list (string * node) :=
  [("Counter.sol",
    Dir [("Counter.json", File (Some (Json.stringify counterJson)));
         ("Counter.dbg.json", File (Some "{"));
         ("notes.txt", File (Some (Json.stringify counterJson)))]);
   ("ICounter.sol",
    Dir [("ICounter.json", File (Some (Json.stringify interfaceJson)));
         ("unreadable.json", File None)])].

(** The record that Ignition keeps for chain 31337. *)
Definition ignitionTree : list (string * node) :=
  [("deployed_addresses.json", File (Some (Json.stringify deployedAddressesJson)));
   ("artifacts",
    Dir [("CounterModule#Counter.json", File (Some (Json.stringify counterJson)))]);
   ("build-info", Dir [("solc-1.json", File (Some (Json.stringify buildInfoJson)))])].

Definition projectWith (ignition : list (string * node)) : node :=
  Dir [("artifacts",
        Dir [("contracts", Dir compiledTree);
             ("build-info",
              Dir [("solc-1.json", File (Some (Json.stringify buildInfoJson)))])]);
       ("contracts", Dir [("Counter.sol", File (Some counterSource))]);
       ("ignition", Dir [("deployments", Dir ignition)])].

(** A project with a deployment record, one whose record directory is
    there but empty, and one that never used Ignition. *)
Definition project : node := projectWith [("chain-31337", Dir ignitionTree)].
Definition projectEmptyRecord : node := projectWith [("chain-31337", Dir [])].
Definition projectNoRecord : node := projectWith [].

(** A record whose address list is there and lists nothing. *)
Definition projectFreshRecord : node :=
  projectWith
    [("chain-31337",
      Dir [("deployed_addresses.json", File (Some (Json.stringify (JObj []))))])].

Definition counter : CompiledArtifact.t :=
  CompiledArtifact.mk "Counter" "contracts/Counter.sol" (JArr []) "0x6001" (Some "solc-1").

Definition interface : CompiledArtifact.t :=
  CompiledArtifact.mk "ICounter" "contracts/ICounter.sol" (JArr []) "0x" None.

Definition tracker : DeploymentTracker :=
  {| compiledArtifacts := [counter; interface];
     trackedDeployments := ∅;
     pendingTxs := ∅ |}.

(** The tracker after a raw deployment of [Counter] at the address that
    the Ignition record also lists (there in upper case). *)
Definition deployed : DeploymentTracker :=
  trackDeploymentReceipt JSON_parse project
    (trackSendTransaction tracker "0xaa" "0x6001") "0xaa" "0xabc1".

(** What the Ignition record of [project] amounts to. *)
Definition structured : AddressMap :=
  {[ "0xabc1" :=
       {| ArtifactData.abi := JArr [];
          ArtifactData.contractName := "Counter";
          ArtifactData.sourceName := Some "contracts/Counter.sol";
          ArtifactData.buildInfoId := Some "solc-1";
          ArtifactData.sourceCode := Some counterSource;
          ArtifactData.buildInfo := Some buildInfoJson;
          ArtifactData.deployments := ["0xABC1"] |} ]}.

End Sample.

(** * Properties *)

(** ** Strings *)

Module StrFacts.

Lemma app_cons c s t : String c s +:+ t = String c (s +:+ t).
Proof. reflexivity. Qed.

Lemma app_nil_l s : EmptyString +:+ s = s.
Proof. reflexivity. Qed.

Lemma app_nil_r s : s +:+ EmptyString = s.
Proof. induction s as [|c s IH]; [done|]. by rewrite app_cons, IH. Qed.

Lemma app_assoc s t u : (s +:+ t) +:+ u = s +:+ (t +:+ u).
Proof. induction s as [|c s IH]; [done|]. by rewrite !app_cons, IH. Qed.

Lemma length_app s t : String.length (s +:+ t) = String.length s + String.length t.
Proof. induction s as [|c s IH]; [done|]. rewrite app_cons. simpl. by rewrite IH. Qed.

Lemma length_toLowerCase s : String.length (Str.toLowerCase s) = String.length s.
Proof. induction s as [|c s IH]; simpl; congruence. Qed.

Lemma toLowerCase_app s t :
  Str.toLowerCase (s +:+ t) = Str.toLowerCase s +:+ Str.toLowerCase t.
Proof. induction s as [|c s IH]; [done|]. rewrite app_cons. simpl. by rewrite IH. Qed.

Lemma startsWith_app p r : Str.startsWith (p +:+ r) p = true.
Proof.
  induction p as [|b p IH]; [done|].
  rewrite app_cons. simpl. by rewrite Ascii.eqb_refl.
Qed.

(** [startsWith] decides the prefix relation. *)
Lemma startsWith_iff s p : Str.startsWith s p = true <-> exists r, s = p +:+ r.
Proof.
  split.
  - revert s. induction p as [|b p IH]; intros s H.
    + by exists s.
    + destruct s as [|a s]; [done|]. simpl in H.
      destruct (Ascii.eqb a b) eqn:E; [|done].
      apply Ascii.eqb_eq in E as ->. destruct (IH _ H) as [r ->]. by exists r.
  - intros [r ->]. apply startsWith_app.
Qed.

Lemma startsWith_false_iff s p :
  Str.startsWith s p = false <-> ~ exists r, s = p +:+ r.
Proof.
  rewrite <- startsWith_iff. destruct (Str.startsWith s p); naive_solver.
Qed.

End StrFacts.

(** ** The matching rule of [findMatchingArtifact] *)

(** The rule as the specification words it: the bytecode is more than the
    bare hex prefix and, letter case apart, the creation data starts with
    it. *)
Definition bytecode_matches (bytecode creationData : string) : Prop :=
  2 < String.length bytecode /\
  exists rest, Str.toLowerCase creationData = Str.toLowerCase bytecode +:+ rest.

Definition artifact_matches (creationData : string) (a : CompiledArtifact.t) : Prop :=
  bytecode_matches (CompiledArtifact.bytecode a) creationData.

Lemma match_test_iff bytecode creationData :
  (2 <? String.length (Str.toLowerCase bytecode))
  && Str.startsWith (Str.toLowerCase creationData) (Str.toLowerCase bytecode) = true
  <-> bytecode_matches bytecode creationData.
Proof.
  unfold bytecode_matches.
  rewrite andb_true_iff, Nat.ltb_lt, StrFacts.length_toLowerCase, StrFacts.startsWith_iff.
  done.
Qed.

Lemma findMatchingArtifact_Some artifacts creationData a :
  findMatchingArtifact artifacts creationData = Some a <->
  exists before after,
    artifacts = before ++ a :: after /\
    artifact_matches creationData a /\
    Forall (fun x => ~ artifact_matches creationData x) before.
Proof.
  induction artifacts as [|x rest IH]; simpl.
  - split; [done|]. intros ([|??] & ? & ? & _); done.
  - destruct (_ && _) eqn:E.
    + apply match_test_iff in E. split.
      * intros [= ->]. by exists [], rest.
      * intros (before & after & Heq & Ha & Hb).
        destruct before as [|y before]; simplify_eq/=; [done|].
        by apply Forall_cons in Hb as [[] _].
    + assert (~ artifact_matches creationData x) as Hx.
      { intros Hm%match_test_iff. congruence. }
      rewrite IH. split.
      * intros (before & after & -> & Ha & Hb).
        exists (x :: before), after. split; [done|]. split; [done|]. by constructor.
      * intros (before & after & Heq & Ha & Hb).
        destruct before as [|y before]; simplify_eq/=; [done|].
        apply Forall_cons in Hb as [_ Hb]. by exists before, after.
Qed.

Lemma findMatchingArtifact_None artifacts creationData :
  findMatchingArtifact artifacts creationData = None <->
  Forall (fun x => ~ artifact_matches creationData x) artifacts.
Proof.
  induction artifacts as [|x rest IH]; simpl.
  - by split; [constructor|].
  - destruct (_ && _) eqn:E.
    + apply match_test_iff in E. split; [done|].
      by intros [[] _]%Forall_cons.
    + rewrite IH, Forall_cons. split; [|by intros [_ ?]].
      intros H. split; [|done]. intros Hx%match_test_iff. congruence.
Qed.

(** C1.  [findMatchingArtifact] returns the first artifact, in the order
    of the list, whose bytecode is longer than two characters and,
    compared without letter case, starts the creation data; it returns
    nothing exactly when no artifact is such.  An artifact whose bytecode
    is the bare prefix [0x] is never returned, and creation data made of
    an artifact's bytecode (longer than [0x]) followed by constructor
    arguments is matched. *)
Theorem findMatchingArtifact_first_prefix_match :
  forall (artifacts : list CompiledArtifact.t) (creationData : string),
    (forall a,
        findMatchingArtifact artifacts creationData = Some a <->
        exists before after,
          artifacts = before ++ a :: after /\
          artifact_matches creationData a /\
          Forall (fun x => ~ artifact_matches creationData x) before) /\
    (findMatchingArtifact artifacts creationData = None <->
       Forall (fun x => ~ artifact_matches creationData x) artifacts) /\
    (forall a,
        findMatchingArtifact artifacts creationData = Some a ->
        CompiledArtifact.bytecode a <> "0x") /\
    ~ bytecode_matches "0x" creationData /\
    (forall a args,
        In a artifacts ->
        2 < String.length (CompiledArtifact.bytecode a) ->
        creationData = CompiledArtifact.bytecode a +:+ args ->
        exists a', findMatchingArtifact artifacts creationData = Some a' /\
                   artifact_matches creationData a').
Proof.
  intros artifacts creationData.
  split; [intros a; apply findMatchingArtifact_Some|].
  split; [apply findMatchingArtifact_None|].
  split; [|split].
  - intros a (_ & _ & _ & [Hlen _] & _)%findMatchingArtifact_Some Hb.
    rewrite Hb in Hlen. simpl in Hlen. lia.
  - intros [Hlen _]. simpl in Hlen. lia.
  - intros a args Hin Hlen ->.
    destruct (findMatchingArtifact artifacts _) as [a'|] eqn:E.
    + exists a'. split; [done|].
      by apply findMatchingArtifact_Some in E as (_ & _ & _ & ? & _).
    + apply findMatchingArtifact_None in E.
      rewrite Forall_forall in E. apply list_elem_of_In in Hin. destruct (E a Hin).
      split; [done|]. eexists. apply StrFacts.toLowerCase_app.
Qed.

(** The example of the specification: bytecode [0x6001] and creation data
    [0x6001deadbeef]. *)
Example findMatchingArtifact_constructor_args :
  let a := CompiledArtifact.mk "C" "contracts/C.sol" (JArr []) "0x6001" None in
  let e := CompiledArtifact.mk "E" "contracts/E.sol" (JArr []) "0x" None in
  findMatchingArtifact [e; a] "0x6001DEADBEEF" = Some a /\
  findMatchingArtifact [e] "0x6001deadbeef" = None /\
  findMatchingArtifact [e] "0x" = None.
Proof. by vm_compute. Qed.

(** ** The deployment tracker *)

Section Tracker.

Variable JSON_parse : string -> option json.
Variable root : node.

Lemma matched_data_nonempty bytecode creationData :
  bytecode_matches bytecode creationData -> String.eqb creationData EmptyString = false.
Proof.
  intros [Hlen [rest Hrest]]. apply String.eqb_neq. intros ->.
  apply (f_equal String.length) in Hrest.
  rewrite StrFacts.length_app, !StrFacts.length_toLowerCase in Hrest.
  simpl in Hrest. lia.
Qed.

Lemma findMatchingArtifact_unique artifacts creationData a :
  In a artifacts ->
  artifact_matches creationData a ->
  (forall a', In a' artifacts -> artifact_matches creationData a' -> a' = a) ->
  findMatchingArtifact artifacts creationData = Some a.
Proof.
  intros Hin Hm Huniq.
  destruct (findMatchingArtifact artifacts creationData) as [a'|] eqn:E.
  - apply findMatchingArtifact_Some in E as (before & after & -> & Hm' & _).
    f_equal. apply Huniq; [|done]. apply in_or_app. right. by left.
  - apply findMatchingArtifact_None in E. rewrite Forall_forall in E.
    apply list_elem_of_In in Hin. by destruct (E a Hin).
Qed.

(** C7.  A receipt for a transaction hash that is not pending changes
    nothing: the tracker, hence its tracked deployments and its pending
    map, is the one before the call, and the call completes. *)
Theorem trackDeploymentReceipt_unknown_hash :
  forall (t : DeploymentTracker) (txHash contractAddress : string),
    pendingTxs t !! txHash = None ->
    trackDeploymentReceipt JSON_parse root t txHash contractAddress = t.
Proof.
  intros t txHash contractAddress H. unfold trackDeploymentReceipt. by rewrite H.
Qed.

(** The state after a submission and its receipt, when exactly one
    artifact matches. *)
Lemma send_then_receipt_state (t : DeploymentTracker)
  (txHash data contractAddress : string) (a : CompiledArtifact.t) :
  In a (compiledArtifacts t) ->
  artifact_matches data a ->
  (forall a', In a' (compiledArtifacts t) -> artifact_matches data a' -> a' = a) ->
  trackDeploymentReceipt JSON_parse root
    (trackSendTransaction t txHash data) txHash contractAddress
  = {| compiledArtifacts := compiledArtifacts t;
       trackedDeployments :=
         <[Str.toLowerCase contractAddress :=
             trackedEntry JSON_parse root a contractAddress]>
           (trackedDeployments t);
       pendingTxs := delete txHash (pendingTxs t) |}.
Proof.
  intros Hin Hm Huniq. unfold trackDeploymentReceipt, trackSendTransaction. simpl.
  rewrite lookup_insert_eq, (matched_data_nonempty _ _ Hm).
  rewrite (findMatchingArtifact_unique _ _ a Hin Hm Huniq).
  by rewrite delete_insert_eq.
Qed.

(** C2.  When the creation data matches exactly one compiled artifact,
    [trackSendTransaction] followed by [trackDeploymentReceipt] adds to
    the result of [getArtifacts] one entry, under the lower-cased
    address, built from that artifact and whose [deployments] is the
    one-element list of the address as given; every other key is as
    before, and the hash is no longer pending. *)
Theorem track_send_then_receipt :
  forall (t : DeploymentTracker) (txHash data contractAddress : string)
         (a : CompiledArtifact.t),
    In a (compiledArtifacts t) ->
    artifact_matches data a ->
    (forall a', In a' (compiledArtifacts t) -> artifact_matches data a' -> a' = a) ->
    let t' := trackDeploymentReceipt JSON_parse root
                (trackSendTransaction t txHash data) txHash contractAddress in
    exists entry : ArtifactData.t,
      getArtifacts t' = <[Str.toLowerCase contractAddress := entry]> (getArtifacts t) /\
      getArtifacts t' !! Str.toLowerCase contractAddress = Some entry /\
      (forall k, k <> Str.toLowerCase contractAddress ->
                 getArtifacts t' !! k = getArtifacts t !! k) /\
      ArtifactData.deployments entry = [contractAddress] /\
      ArtifactData.contractName entry = CompiledArtifact.contractName a /\
      ArtifactData.abi entry = CompiledArtifact.abi a /\
      pendingTxs t' !! txHash = None /\
      pendingTxs t' = delete txHash (pendingTxs t) /\
      compiledArtifacts t' = compiledArtifacts t.
Proof.
  intros t txHash data contractAddress a Hin Hm Huniq t'.
  exists (trackedEntry JSON_parse root a contractAddress).
  subst t'. rewrite (send_then_receipt_state _ _ _ _ a Hin Hm Huniq).
  unfold getArtifacts. simpl. repeat split.
  - apply lookup_insert_eq.
  - intros k Hk. by rewrite lookup_insert_ne.
  - apply lookup_delete_eq.
Qed.

(** On a tracker that has tracked nothing, the result of [getArtifacts]
    is then exactly that one entry. *)
Corollary track_first_deployment :
  forall (t : DeploymentTracker) (txHash data contractAddress : string)
         (a : CompiledArtifact.t),
    trackedDeployments t = ∅ ->
    In a (compiledArtifacts t) ->
    artifact_matches data a ->
    (forall a', In a' (compiledArtifacts t) -> artifact_matches data a' -> a' = a) ->
    exists entry : ArtifactData.t,
      getArtifacts (trackDeploymentReceipt JSON_parse root
                      (trackSendTransaction t txHash data) txHash contractAddress)
      = {[Str.toLowerCase contractAddress := entry]} /\
      ArtifactData.deployments entry = [contractAddress].
Proof.
  intros t txHash data contractAddress a Hempty Hin Hm Huniq.
  exists (trackedEntry JSON_parse root a contractAddress).
  rewrite (send_then_receipt_state _ _ _ _ a Hin Hm Huniq).
  unfold getArtifacts. simpl. by rewrite Hempty.
Qed.

End Tracker.

(** ** The aggregator ([artifactLoader]) *)

(** The merge as the specification words it: [merged] binds a key to the
    entry of [over] when [over] has the key, and otherwise to whatever
    [base] binds it to. *)
Definition overlay (base over merged : AddressMap) : Prop :=
  forall k, merged !! k = match over !! k with
                          | Some y => Some y
                          | None => base !! k
                          end.

Lemma overlay_union (base over : AddressMap) : overlay base over (over ∪ base).
Proof.
  intros k. rewrite lookup_union. by destruct (over !! k), (base !! k).
Qed.

Lemma overlay_unique (base over m1 m2 : AddressMap) :
  overlay base over m1 -> overlay base over m2 -> m1 = m2.
Proof. intros H1 H2. apply map_eq. intros k. by rewrite H1, H2. Qed.

Lemma overlay_empty_iff (base over merged : AddressMap) :
  overlay base over merged -> merged = ∅ <-> base = ∅ /\ over = ∅.
Proof.
  intros H. rewrite !map_empty. split.
  - intros He. split; intros k; specialize (H k); rewrite He in H;
      by destruct (over !! k).
  - intros [Hb Ho] k. by rewrite H, Ho, Hb.
Qed.

Lemma size_pos_iff (m : AddressMap) : (0 <? size m) = true <-> m <> ∅.
Proof. rewrite Nat.ltb_lt, <- map_size_non_empty_iff. lia. Qed.

Section Aggregator.

Variable JSON_parse : string -> option json.
Variable root : node.

(** What the closure returns once [loadIgnitionArtifacts] has returned. *)
Lemma artifactLoader_returns (tracker : DeploymentTracker)
  (structured : option AddressMap) :
  loadIgnitionArtifacts JSON_parse root = Ok structured ->
  artifactLoader JSON_parse root tracker =
  Ok (if 0 <? size (getArtifacts tracker ∪ default ∅ structured)
      then Some (getArtifacts tracker ∪ default ∅ structured)
      else None).
Proof. intros H. unfold artifactLoader. by rewrite H. Qed.

(** C3.  The aggregator merges the structured map (the empty map when it
    is [null]) with the tracked map: every key of the result is bound to
    the tracked entry when the tracked map has it, and otherwise as in
    the structured map.  So structured [{A: x}] and tracked [{A: y, B: z}]
    give [{A: y, B: z}]. *)
Theorem artifactLoader_tracked_wins :
  forall (tracker : DeploymentTracker) (structured : option AddressMap),
    loadIgnitionArtifacts JSON_parse root = Ok structured ->
    exists result : option AddressMap,
      artifactLoader JSON_parse root tracker = Ok result /\
      overlay (default ∅ structured) (getArtifacts tracker) (default ∅ result) /\
      (forall (A B : string) (x y z : ArtifactData.t),
          A <> B ->
          structured = Some {[A := x]} ->
          getArtifacts tracker = <[A := y]> {[B := z]} ->
          result = Some (<[A := y]> {[B := z]})).
Proof.
  intros tracker structured Hload.
  rewrite (artifactLoader_returns _ _ Hload).
  set (combined := getArtifacts tracker ∪ default ∅ structured).
  assert (overlay (default ∅ structured) (getArtifacts tracker) combined) as Hov
    by apply overlay_union.
  destruct (0 <? size combined) eqn:E.
  - exists (Some combined). split; [done|]. split; [done|].
    intros A B x y z HAB -> Htracked. f_equal.
    apply map_eq. intros k. rewrite (Hov k), Htracked. simpl.
    destruct (decide (k = A)) as [->|HkA].
    + by rewrite lookup_insert_eq.
    + rewrite lookup_insert_ne by done.
      destruct (decide (k = B)) as [->|HkB].
      * by rewrite lookup_singleton_eq.
      * by rewrite !lookup_singleton_ne.
  - exists None. split; [done|].
    assert (combined = ∅) as Hc.
    { destruct (decide (combined = ∅)) as [|Hne]; [done|].
      apply size_pos_iff in Hne. congruence. }
    split.
    + by replace (default ∅ None) with combined.
    + intros A B x y z _ _ Htracked. exfalso.
      apply (overlay_empty_iff _ _ _ Hov) in Hc as [_ Hc].
      rewrite Htracked in Hc.
      by apply insert_non_empty in Hc.
Qed.

(** C4.  The aggregator returns [null] exactly when the merge of the
    structured map (empty when [null]) and the tracked map has no key,
    and otherwise it returns that merge; a [null] structured map and an
    empty tracked map give [null]. *)
Theorem artifactLoader_null_iff_empty :
  forall (tracker : DeploymentTracker) (structured : option AddressMap)
         (merged : AddressMap),
    loadIgnitionArtifacts JSON_parse root = Ok structured ->
    overlay (default ∅ structured) (getArtifacts tracker) merged ->
    (merged = ∅ -> artifactLoader JSON_parse root tracker = Ok None) /\
    (merged <> ∅ -> artifactLoader JSON_parse root tracker = Ok (Some merged)) /\
    (artifactLoader JSON_parse root tracker = Ok None <-> merged = ∅) /\
    (structured = None -> getArtifacts tracker = ∅ ->
     artifactLoader JSON_parse root tracker = Ok None).
Proof.
  intros tracker structured merged Hload Hov.
  rewrite (artifactLoader_returns _ _ Hload).
  assert (getArtifacts tracker ∪ default ∅ structured = merged) as ->.
  { eapply overlay_unique; [apply overlay_union|done]. }
  destruct (0 <? size merged) eqn:E.
  - apply size_pos_iff in E. repeat split; try done.
    intros -> Ht. destruct E.
    apply (overlay_empty_iff _ _ _ Hov). by split.
  - assert (merged = ∅) as ->.
    { destruct (decide (merged = ∅)) as [|Hne]; [done|].
      apply size_pos_iff in Hne. congruence. }
    repeat split; done.
Qed.

End Aggregator.

(** ** The scan of the compiled artifacts *)

(** Induction on a directory tree, with the hypothesis for every entry
    of a directory. *)
Lemma node_tree_ind (P : node -> Prop) :
  (forall text, P (File text)) ->
  (forall entries, Forall (fun ey => P ey.2) entries -> P (Dir entries)) ->
  forall x, P x.
Proof.
  intros Hfile Hdir.
  fix IH 1. intros [text|entries].
  - apply Hfile.
  - apply Hdir. induction entries as [|[e y] rest IHrest]; constructor.
    + apply IH.
    + apply IHrest.
Qed.

(** The number of files of a tree that satisfy [P] (on name and text). *)
Fixpoint count_files (P : string -> option string -> bool) (entry : string)
  (x : node) : nat :=
  match x with
  | File text => if P entry text then 1 else 0
  | Dir entries => list_sum (List.map (fun '(e, y) => count_files P e y) entries)
  end.

Definition count_dir (P : string -> option string -> bool)
  (entries : list (string * node)) : nat :=
  list_sum (List.map (fun '(e, y) => count_files P e y) entries).

Section Scan.

Variable JSON_parse : string -> option json.

(** A file with the artifact suffix. *)
Definition artifact_file (entry : string) (text : option string) : bool :=
  Str.endsWith entry ".json".

(** An artifact file as the code accepts it: it parses and its
    [contractName], [abi] and [bytecode] are truthy. *)
Definition accepted_file (entry : string) (text : option string) : bool :=
  Str.endsWith entry ".json"
  && match text with
     | Some txt =>
         match JSON_parse txt with
         | Some content =>
             Json.truthy (Json.get "contractName" content)
             && Json.truthy (Json.get "abi" content)
             && Json.truthy (Json.get "bytecode" content)
         | None => false
         end
     | None => false
     end.

Definition skipped_file (entry : string) (text : option string) : bool :=
  Str.endsWith entry ".json" && negb (accepted_file entry text).

(** An artifact file that is valid in the words of the specification: it
    parses as JSON with a non-empty [contractName], an [abi] field and a
    [bytecode] field. *)
Definition valid_file (entry : string) (text : option string) : bool :=
  Str.endsWith entry ".json"
  && match text with
     | Some txt =>
         match JSON_parse txt with
         | Some content =>
             Json.truthy (Json.get "contractName" content)
             && bool_decide (is_Some (Json.get "abi" content))
             && bool_decide (is_Some (Json.get "bytecode" content))
         | None => false
         end
     | None => false
     end.

Lemma accepted_file_parse entry text :
  accepted_file entry text =
  Str.endsWith entry ".json"
  && bool_decide (is_Some (parseCompiledArtifact JSON_parse text)).
Proof.
  unfold accepted_file, parseCompiledArtifact. f_equal.
  destruct text as [txt|]; [|done].
  destruct (JSON_parse txt) as [content|]; [|done].
  by destruct (_ && _).
Qed.

Lemma scanEntry_Dir entry entries acc :
  scanEntry JSON_parse entry (Dir entries) acc = scanDir JSON_parse entries acc.
Proof. reflexivity. Qed.

(** The scan only appends to the artifacts collected so far. *)
Lemma scanEntry_acc entry x :
  forall acc,
    scanEntry JSON_parse entry x acc = acc ++ scanEntry JSON_parse entry x [].
Proof.
  revert entry. induction x as [text|entries IH] using node_tree_ind; intros entry acc.
  - simpl. destruct (Str.endsWith entry ".json"); [|by rewrite app_nil_r].
    destruct (parseCompiledArtifact JSON_parse text); [done|by rewrite app_nil_r].
  - rewrite !scanEntry_Dir. unfold scanDir. revert acc.
    induction IH as [|[e y] rest Hy _ IHrest]; intros acc; simpl.
    + by rewrite app_nil_r.
    + simpl in Hy.
      rewrite IHrest, (IHrest (scanEntry _ _ _ [])), (Hy e acc).
      by rewrite app_assoc.
Qed.

Lemma scanDir_acc entries acc :
  scanDir JSON_parse entries acc = acc ++ scanDir JSON_parse entries [].
Proof. apply (scanEntry_acc EmptyString (Dir entries)). Qed.

Lemma scanDir_cons e y rest :
  scanDir JSON_parse ((e, y) :: rest) [] =
  scanEntry JSON_parse e y [] ++ scanDir JSON_parse rest [].
Proof. unfold scanDir at 1. simpl. apply scanDir_acc. Qed.

(** Every accepted file contributes one artifact, and nothing else does. *)
Lemma scanEntry_length entry x :
  length (scanEntry JSON_parse entry x []) = count_files accepted_file entry x.
Proof.
  revert entry. induction x as [text|entries IH] using node_tree_ind; intros entry.
  - simpl. rewrite accepted_file_parse.
    destruct (Str.endsWith entry ".json"); [|done].
    by destruct (parseCompiledArtifact JSON_parse text).
  - rewrite scanEntry_Dir. simpl.
    induction IH as [|[e y] rest Hy _ IHrest]; [done|].
    simpl in Hy. rewrite scanDir_cons, length_app, IHrest, (Hy e). done.
Qed.

Lemma count_files_split entry x :
  count_files accepted_file entry x + count_files skipped_file entry x
  = count_files artifact_file entry x.
Proof.
  revert entry. induction x as [text|entries IH] using node_tree_ind; intros entry.
  - simpl. unfold skipped_file, artifact_file.
    destruct (accepted_file entry text) eqn:E.
    + unfold accepted_file in E. apply andb_true_iff in E as [-> _]. done.
    + by destruct (Str.endsWith entry ".json").
  - simpl. induction IH as [|[e y] rest Hy _ IHrest]; [done|].
    simpl in *. specialize (Hy e). lia.
Qed.

(** C5, as the code has it.  The scan of a directory tree that holds [N]
    artifact files which parse as JSON with truthy [contractName], [abi]
    and [bytecode] (a non-empty name, an [abi] that is not [null],
    [false], [0] or the empty string, a non-empty [bytecode]) and [M]
    other artifact files collects exactly [N] artifacts; each of the [M]
    files is skipped, the artifacts collected before are kept, and the
    scan of a tree always completes. *)
Theorem scanDir_counts_accepted_files :
  forall (entries : list (string * node)) (acc : list CompiledArtifact.t),
    length (scanDir JSON_parse entries []) = count_dir accepted_file entries /\
    count_dir accepted_file entries + count_dir skipped_file entries
    = count_dir artifact_file entries /\
    scanDir JSON_parse entries acc = acc ++ scanDir JSON_parse entries [] /\
    (forall root,
        Fs.at_path root ["artifacts"; "contracts"] = Some (Dir entries) ->
        loadCompiledArtifacts JSON_parse root = Ok (scanDir JSON_parse entries [])).
Proof.
  intros entries acc. split; [|split; [|split]].
  - apply (scanEntry_length EmptyString (Dir entries)).
  - apply (count_files_split EmptyString (Dir entries)).
  - apply scanDir_acc.
  - intros root Hroot. unfold loadCompiledArtifacts, Fs.existsSync, Fs.readdirSync.
    by rewrite Hroot.
Qed.

End Scan.

(** The scan of the sample project: of its five files with the artifact
    suffix, two are collected; the truncated one and the unreadable one
    are skipped, as is the file without the suffix. *)
Example scanDir_sample :
  CompiledArtifact.contractName <$> scanDir Sample.JSON_parse Sample.compiledTree []
  = ["Counter"; "ICounter"] /\
  count_dir (accepted_file Sample.JSON_parse) Sample.compiledTree = 2 /\
  count_dir (skipped_file Sample.JSON_parse) Sample.compiledTree = 2.
Proof. by vm_compute. Qed.

(** C5 as stated fails: a file that parses as JSON with a non-empty
    [contractName], an [abi] field and a [bytecode] field, the bytecode
    being the empty string, is one valid file ([N = 1], [M = 0]) and the
    scan collects nothing from it. *)
Lemma scanDir_skips_empty_bytecode :
  let entries :=
    [("Empty.json", File (Some (Json.stringify Sample.emptyBytecodeJson)))] in
  Sample.JSON_parse (Json.stringify Sample.emptyBytecodeJson)
  = Some Sample.emptyBytecodeJson /\
  count_dir (valid_file Sample.JSON_parse) entries = 1 /\
  length (scanDir Sample.JSON_parse entries []) = 0.
Proof. by vm_compute. Qed.

(** C7 on the sample tracker, where nothing is pending. *)
Lemma trackDeploymentReceipt_unknown_hash_witness :
  pendingTxs Sample.tracker !! "0xaa" = None /\
  trackDeploymentReceipt Sample.JSON_parse Sample.project Sample.tracker "0xaa" "0xDEF2"
  = Sample.tracker.
Proof.
  split; [reflexivity|].
  apply (trackDeploymentReceipt_unknown_hash Sample.JSON_parse Sample.project
           Sample.tracker "0xaa" "0xDEF2").
  reflexivity.
Defined.

(** C2 on the sample tracker: the creation data is the bytecode of
    [Counter] followed by constructor arguments. *)
Lemma track_send_then_receipt_witness :
  exists entry : ArtifactData.t,
    getArtifacts
      (trackDeploymentReceipt Sample.JSON_parse Sample.project
         (trackSendTransaction Sample.tracker "0xaa" "0x6001DEADBEEF") "0xaa" "0xDEF2")
    !! "0xdef2" = Some entry /\
    ArtifactData.deployments entry = ["0xDEF2"] /\
    ArtifactData.contractName entry = "Counter".
Proof.
  destruct (track_send_then_receipt Sample.JSON_parse Sample.project
              Sample.tracker "0xaa" "0x6001DEADBEEF" "0xDEF2" Sample.counter)
    as (entry & _ & Hlookup & _ & Hdeployments & Hname & _).
  - simpl. auto.
  - split; [simpl; lia|]. exists "deadbeef". reflexivity.
  - intros a' [<-|[<-|[]]] [Hlen _]; [reflexivity|]. simpl in Hlen. lia.
  - exists entry. auto.
Defined.

Lemma loadIgnitionArtifacts_sample :
  loadIgnitionArtifacts Sample.JSON_parse Sample.project = Ok (Some Sample.structured).
Proof. by vm_compute. Qed.

(** C3 on the sample project: the address [0xabc1] is in the Ignition
    record and was also tracked. *)
Lemma artifactLoader_tracked_wins_witness :
  exists result : option AddressMap,
    artifactLoader Sample.JSON_parse Sample.project Sample.deployed = Ok result /\
    overlay Sample.structured (getArtifacts Sample.deployed) (default ∅ result) /\
    ArtifactData.deployments <$> (default ∅ result !! "0xabc1") = Some ["0xabc1"].
Proof.
  destruct (artifactLoader_tracked_wins Sample.JSON_parse Sample.project
              Sample.deployed (Some Sample.structured) loadIgnitionArtifacts_sample)
    as (result & Hresult & Hoverlay & _).
  exists result. split; [exact Hresult|]. split; [exact Hoverlay|].
  rewrite (Hoverlay "0xabc1"). reflexivity.
Defined.

(** C4 on the sample projects: a non-empty merge is returned, and no
    record together with no tracked deployment gives [null]. *)
Lemma artifactLoader_null_iff_empty_witness :
  artifactLoader Sample.JSON_parse Sample.project Sample.deployed
  = Ok (Some (getArtifacts Sample.deployed ∪ Sample.structured)) /\
  artifactLoader Sample.JSON_parse Sample.projectNoRecord Sample.tracker = Ok None.
Proof.
  split.
  - destruct (artifactLoader_null_iff_empty Sample.JSON_parse Sample.project
                Sample.deployed (Some Sample.structured)
                (getArtifacts Sample.deployed ∪ Sample.structured)
                loadIgnitionArtifacts_sample (overlay_union _ _))
      as (_ & Hsome & _).
    apply Hsome.
    intros H. apply (f_equal (fun m => m !! "0xabc1")) in H. discriminate H.
  - destruct (artifactLoader_null_iff_empty Sample.JSON_parse Sample.projectNoRecord
                Sample.tracker None ∅) as (Hnull & _).
    + reflexivity.
    + intros k. reflexivity.
    + apply Hnull. reflexivity.
Defined.

(** ** The structured deployment record ([loadIgnitionArtifacts]) *)

Lemma lookup_app root p q :
  Fs.lookup root (p ++ q) =
  match Fs.lookup root p with
  | Some x => Fs.lookup x q
  | None => None
  end.
Proof.
  revert root. induction p as [|seg p IH]; intros root; [done|].
  simpl. destruct root as [|entries]; [done|].
  destruct (Fs.child seg entries); [apply IH|done].
Qed.

(** The address list is looked for inside the record root. *)
Lemma addressList_below_root root :
  Fs.at_path root (deploymentPathOf ++ ["deployed_addresses.json"]) =
  match Fs.at_path root deploymentPathOf with
  | Some x => Fs.lookup x ["deployed_addresses.json"]
  | None => None
  end.
Proof.
  change (Fs.at_path root (deploymentPathOf ++ ["deployed_addresses.json"]))
    with (Fs.lookup root (["ignition"; "deployments"; "chain-31337"]
                          ++ ["deployed_addresses.json"])).
  by rewrite lookup_app.
Qed.

Section Ignition.

Variable JSON_parse : string -> option json.

Lemma findIgnitionDeployment_None root :
  findIgnitionDeployment root = None <->
  Fs.at_path root (deploymentPathOf ++ ["deployed_addresses.json"]) = None.
Proof.
  unfold findIgnitionDeployment, Fs.existsSync.
  by destruct (Fs.at_path root _).
Qed.

Lemma loadIgnitionArtifacts_null root :
  loadIgnitionArtifacts JSON_parse root = Ok None <->
  findIgnitionDeployment root = None.
Proof.
  unfold loadIgnitionArtifacts.
  destruct (findIgnitionDeployment root) as [p|]; [|done].
  by destruct (loadArtifacts JSON_parse p root).
Qed.

(** A record whose address list parses and which has no artifact file
    loads as the empty map. *)
Lemma loadArtifacts_nothing_deployed root text addresses :
  Fs.at_path root (deploymentPathOf ++ ["deployed_addresses.json"])
  = Some (File (Some text)) ->
  JSON_parse text = Some addresses ->
  addresses <> JNull ->
  (Fs.at_path root (deploymentPathOf ++ ["artifacts"]) = None \/
   exists listing,
     Fs.at_path root (deploymentPathOf ++ ["artifacts"]) = Some (Dir listing) /\
     Forall (fun fx => Str.endsWith fx.1 ".json" = false) listing) ->
  loadArtifacts JSON_parse deploymentPathOf root = Ok ∅.
Proof.
  intros Hfile Hparse Hnull Hartifacts.
  assert (Fs.existsSync root (deploymentPathOf ++ ["deployed_addresses.json"]) = true)
    as Hexists by (unfold Fs.existsSync; by rewrite Hfile).
  assert (read_json JSON_parse root (deploymentPathOf ++ ["deployed_addresses.json"])
          = Ok addresses) as Hread.
  { unfold read_json, Fs.readFileSync. rewrite Hfile. cbn [obind]. by rewrite Hparse. }
  assert (exists entries, Object_entries addresses = Ok entries) as [entries Hentries].
  { destruct addresses; simpl; eauto. done. }
  unfold loadArtifacts. rewrite Hexists, Hread. cbn [negb obind]. rewrite Hentries.
  cbn [obind]. unfold Fs.existsSync, Fs.readdirSync.
  destruct Hartifacts as [->|(listing & -> & Hnone)]; [done|]. cbn [negb obind].
  assert (List.filter (fun '(f, _) => Str.endsWith f ".json") listing = []) as ->; [|done].
  induction Hnone as [|[f x] rest Hf _ IH]; [done|].
  simpl in *. by rewrite Hf.
Qed.

(** C6, as the code has it.  [loadIgnitionArtifacts] returns [null]
    exactly when the chain's record has no address list
    [deployed_addresses.json], which is the case in particular when the
    record root does not exist; when the address list is there, parses
    to something other than [null], and the record has no artifact file,
    the result is the empty map, not [null]. *)
Theorem loadIgnitionArtifacts_null_iff_no_address_list :
  forall root : node,
    (loadIgnitionArtifacts JSON_parse root = Ok None <->
     Fs.at_path root (deploymentPathOf ++ ["deployed_addresses.json"]) = None) /\
    (Fs.at_path root deploymentPathOf = None ->
     loadIgnitionArtifacts JSON_parse root = Ok None) /\
    (forall text addresses,
        Fs.at_path root (deploymentPathOf ++ ["deployed_addresses.json"])
        = Some (File (Some text)) ->
        JSON_parse text = Some addresses ->
        addresses <> JNull ->
        (Fs.at_path root (deploymentPathOf ++ ["artifacts"]) = None \/
         exists listing,
           Fs.at_path root (deploymentPathOf ++ ["artifacts"]) = Some (Dir listing) /\
           Forall (fun fx => Str.endsWith fx.1 ".json" = false) listing) ->
        loadIgnitionArtifacts JSON_parse root = Ok (Some ∅)).
Proof.
  intros root. split; [|split].
  - by rewrite loadIgnitionArtifacts_null, findIgnitionDeployment_None.
  - intros Hroot. apply loadIgnitionArtifacts_null, findIgnitionDeployment_None.
    by rewrite addressList_below_root, Hroot.
  - intros text addresses Hfile Hparse Hnull Hartifacts.
    unfold loadIgnitionArtifacts, findIgnitionDeployment, Fs.existsSync.
    rewrite Hfile.
    by rewrite (loadArtifacts_nothing_deployed _ _ _ Hfile Hparse Hnull Hartifacts).
Qed.

End Ignition.

(** The three states on the sample projects: no record, a record with an
    empty address list, a record with one deployment. *)
Example loadIgnitionArtifacts_samples :
  loadIgnitionArtifacts Sample.JSON_parse Sample.projectNoRecord = Ok None /\
  loadIgnitionArtifacts Sample.JSON_parse Sample.projectFreshRecord = Ok (Some ∅) /\
  loadIgnitionArtifacts Sample.JSON_parse Sample.project = Ok (Some Sample.structured).
Proof. by vm_compute. Qed.

(** C6 as stated fails: the record root of the chain exists and holds
    nothing, and the result is [null], as it is when the root does not
    exist. *)
Lemma loadIgnitionArtifacts_null_for_empty_root :
  Fs.at_path Sample.projectEmptyRecord deploymentPathOf = Some (Dir []) /\
  loadIgnitionArtifacts Sample.JSON_parse Sample.projectEmptyRecord = Ok None /\
  Fs.at_path Sample.projectNoRecord deploymentPathOf = None /\
  loadIgnitionArtifacts Sample.JSON_parse Sample.projectNoRecord = Ok None.
Proof. by vm_compute. Qed.

(** ** Object identity: what [getArtifacts] shares with its caller *)

(** The value-level model above identifies an object with its contents.
    The copy that [getArtifacts] makes, [{ ...this.trackedDeployments }],
    is a new object whose properties hold the same references as the
    tracker's own object, so what a caller can change through it is a
    matter of references.  Here an [AddressMap] object is a map from
    property names to references of [ArtifactData] objects, and the heap
    holds both kinds of object. *)
Module Heap.

Definition ref : Type := positive.

Record heap : Type := mkHeap {
  maps : gmap ref (gmap string ref);
  records : gmap ref ArtifactData.t
}.

(** The [AddressMap] that is read through the reference [o]. *)
Definition read (h : heap) (o : ref) : AddressMap :=
  omap (fun l => records h !! l) (default ∅ (maps h !! o)).

(** [getArtifacts()], where [tracked] is [this.trackedDeployments]: a new
    object with the properties of [tracked]. *)
Definition getArtifacts (h : heap) (tracked : ref) : heap * ref :=
  let o := fresh (dom (maps h)) in
  ({| maps := <[o := default ∅ (maps h !! tracked)]> (maps h);
      records := records h |}, o).

(** [this.trackedDeployments[key] = entry] in [trackDeploymentReceipt],
    where [entry] is a new object. *)
Definition store (h : heap) (tracked : ref) (key : string) (entry : ArtifactData.t)
  : heap :=
  let l := fresh (dom (records h)) in
  {| maps := alter (insert key l) tracked (maps h);
     records := <[l := entry]> (records h) |}.

(** What a caller can do with an [AddressMap] object [o] it holds. *)
Inductive mutation : Type :=
  | Assign (k : string) (l : ref)
      (** [o[k] = x], for an existing record [x] *)
  | AssignNew (k : string) (v : ArtifactData.t)
      (** [o[k] = { ... }] *)
  | Delete (k : string)
      (** [delete o[k]] *)
  | Update (k : string) (f : ArtifactData.t -> ArtifactData.t)
      (** [o[k].contractName = ...], [o[k].deployments.push(...)], ... *).

Definition mutate (o : ref) (h : heap) (m : mutation) : heap :=
  match m with
  | Assign k l =>
      match records h !! l with
      | Some _ => {| maps := alter (insert k l) o (maps h); records := records h |}
      | None => h
      end
  | AssignNew k v =>
      let l := fresh (dom (records h)) in
      {| maps := alter (insert k l) o (maps h); records := <[l := v]> (records h) |}
  | Delete k =>
      {| maps := alter (delete k) o (maps h); records := records h |}
  | Update k f =>
      match maps h !! o ≫= (fun m => m !! k) with
      | Some l => {| maps := maps h; records := alter f l (records h) |}
      | None => h
      end
  end.

(** A mutation of the object itself: its own properties are added,
    removed or rebound. *)
Definition own (m : mutation) : bool :=
  match m with
  | Update _ _ => false
  | _ => true
  end.

(** Every reference held by an [AddressMap] object is to a record. *)
Definition closed (h : heap) : Prop :=
  forall o m k l, maps h !! o = Some m -> m !! k = Some l -> is_Some (records h !! l).

(** [h'] extends [h] without touching the object [tracked] or any
    record of [h]. *)
Definition preserves (tracked : ref) (h h' : heap) : Prop :=
  maps h' !! tracked = maps h !! tracked /\
  records h ⊆ records h' /\
  (closed h -> closed h').

(** [entry.deployments.push(address)] *)
Definition push_deployment (address : string) (d : ArtifactData.t) : ArtifactData.t :=
  {| ArtifactData.abi := ArtifactData.abi d;
     ArtifactData.contractName := ArtifactData.contractName d;
     ArtifactData.sourceName := ArtifactData.sourceName d;
     ArtifactData.buildInfoId := ArtifactData.buildInfoId d;
     ArtifactData.sourceCode := ArtifactData.sourceCode d;
     ArtifactData.buildInfo := ArtifactData.buildInfo d;
     ArtifactData.deployments := ArtifactData.deployments d ++ [address] |}.

(** The heap of a new tracker, whose [trackedDeployments] is the object
    [tracked], and the heap of the sample tracker [Sample.deployed]. *)
Definition init (tracked : ref) : heap :=
  {| maps := {[tracked := ∅]}; records := ∅ |}.

Definition sampleTracked : ref := 1%positive.

Definition sample : heap :=
  store (init sampleTracked) sampleTracked "0xabc1"
    (trackedEntry Sample.JSON_parse Sample.project Sample.counter "0xabc1").

End Heap.

(** ** Sharing between the tracker and the callers of [getArtifacts] *)

Section Sharing.

Import Heap.

Lemma read_lookup h o k :
  read h o !! k = default ∅ (maps h !! o) !! k ≫= (fun l => records h !! l).
Proof. unfold read. apply lookup_omap. Qed.

(** The object returned reads as the tracker's own. *)
Lemma getArtifacts_copy h tracked :
  read (getArtifacts h tracked).1 (getArtifacts h tracked).2 = read h tracked.
Proof.
  apply map_eq. intros k. rewrite !read_lookup. simpl.
  by rewrite lookup_insert_eq.
Qed.

Lemma getArtifacts_new h tracked :
  is_Some (maps h !! tracked) -> (getArtifacts h tracked).2 <> tracked.
Proof.
  intros Hin%elem_of_dom Heq. simpl in Heq. rewrite <- Heq in Hin.
  by apply is_fresh in Hin.
Qed.

Lemma preserves_refl tracked h : preserves tracked h h.
Proof. by split; [|split]. Qed.

Lemma preserves_trans tracked h1 h2 h3 :
  preserves tracked h1 h2 -> preserves tracked h2 h3 -> preserves tracked h1 h3.
Proof.
  intros (Hm1 & Hr1 & Hc1) (Hm2 & Hr2 & Hc2). split; [congruence|].
  split; [by etrans|auto].
Qed.

Lemma preserves_read tracked h h' :
  closed h -> preserves tracked h h' -> read h' tracked = read h tracked.
Proof.
  intros Hclosed (Hm & Hr & _). apply map_eq. intros k.
  rewrite !read_lookup, Hm.
  destruct (maps h !! tracked) as [m|] eqn:Em; simpl; [|by rewrite !lookup_empty].
  destruct (m !! k) as [l|] eqn:El; simpl; [|done].
  destruct (Hclosed _ _ _ _ Em El) as [v Hv].
  rewrite Hv. by apply (lookup_weaken _ _ _ _ Hv).
Qed.

Lemma getArtifacts_preserves h tracked :
  is_Some (maps h !! tracked) ->
  preserves tracked h (getArtifacts h tracked).1.
Proof.
  intros Hin. pose proof (getArtifacts_new h tracked Hin) as Hne.
  split; [|split]; simpl in *.
  - by rewrite lookup_insert_ne.
  - done.
  - intros Hclosed o m k l. simpl.
    destruct (decide (o = fresh (dom (maps h)))) as [->|Ho].
    + rewrite lookup_insert_eq. intros [= <-] Hk.
      destruct Hin as [m0 Hm0]. rewrite Hm0 in Hk. simpl in Hk. by eapply Hclosed.
    + rewrite lookup_insert_ne by done. apply Hclosed.
Qed.

Lemma mutate_own_preserves tracked o h m :
  o <> tracked -> own m = true -> preserves tracked h (mutate o h m).
Proof.
  intros Hne Hown. destruct m as [k l|k v|k|k f]; [| | |done]; simpl.
  - destruct (records h !! l) as [v|] eqn:El; [|apply preserves_refl].
    split; [|split]; simpl.
    + by rewrite lookup_alter_ne.
    + done.
    + intros Hclosed o' m' k' l'. simpl.
      destruct (decide (o' = o)) as [->|Ho].
      * rewrite lookup_alter_eq. destruct (maps h !! o) as [m0|] eqn:Em; [|done].
        intros [= <-]. destruct (decide (k' = k)) as [->|Hk].
        -- rewrite lookup_insert_eq. intros [= <-]. by rewrite El.
        -- rewrite lookup_insert_ne by done. by eapply Hclosed.
      * rewrite lookup_alter_ne by done. apply Hclosed.
  - pose proof (is_fresh (dom (records h))) as Hfresh.
    apply not_elem_of_dom in Hfresh.
    split; [|split]; simpl.
    + by rewrite lookup_alter_ne.
    + by apply insert_subseteq.
    + intros Hclosed o' m' k' l'. simpl.
      destruct (decide (o' = o)) as [->|Ho].
      * rewrite lookup_alter_eq. destruct (maps h !! o) as [m0|] eqn:Em; [|done].
        intros [= <-]. destruct (decide (k' = k)) as [->|Hk].
        -- rewrite lookup_insert_eq. intros [= <-]. by rewrite lookup_insert_eq.
        -- rewrite lookup_insert_ne by done. intros Hl.
           destruct (Hclosed _ _ _ _ Em Hl) as [w Hw]. exists w.
           by apply (lookup_weaken _ _ _ _ Hw), insert_subseteq.
      * rewrite lookup_alter_ne by done. intros Hm' Hl.
        destruct (Hclosed _ _ _ _ Hm' Hl) as [w Hw]. exists w.
        by apply (lookup_weaken _ _ _ _ Hw), insert_subseteq.
  - split; [|split]; simpl.
    + by rewrite lookup_alter_ne.
    + done.
    + intros Hclosed o' m' k' l'. simpl.
      destruct (decide (o' = o)) as [->|Ho].
      * rewrite lookup_alter_eq. destruct (maps h !! o) as [m0|] eqn:Em; [|done].
        intros [= <-]. destruct (decide (k' = k)) as [->|Hk].
        -- by rewrite lookup_delete_eq.
        -- rewrite lookup_delete_ne by done. by eapply Hclosed.
      * rewrite lookup_alter_ne by done. apply Hclosed.
Qed.

Lemma mutations_own_preserve tracked o ms :
  o <> tracked -> Forall (fun m => own m = true) ms ->
  forall h, preserves tracked h (foldl (mutate o) h ms).
Proof.
  intros Hne Hown. induction Hown as [|m ms Hm _ IH]; intros h; simpl.
  - apply preserves_refl.
  - eapply preserves_trans; [by apply mutate_own_preserves|apply IH].
Qed.

Lemma init_closed tracked : closed (init tracked).
Proof.
  intros o m k l Ho Hk. simpl in Ho.
  apply lookup_singleton_Some in Ho as [_ <-]. by rewrite lookup_empty in Hk.
Qed.

Lemma store_closed h tracked key entry :
  closed h -> closed (store h tracked key entry).
Proof.
  assert (tracked <> Pos.succ tracked) as Hne by lia.
  apply (mutate_own_preserves (Pos.succ tracked) tracked h (AssignNew key entry) Hne eq_refl).
Qed.

Lemma sample_closed : closed sample.
Proof. apply store_closed, init_closed. Qed.

(** C8, as the code has it.  [getArtifacts] returns a new object that
    reads as the tracked deployments.  Whatever the caller then does to
    that object itself (binding a key to another record, to a new
    record, deleting a key), the tracker's own object and the records it
    refers to are as before, and so is what a later [getArtifacts]
    returns. *)
Theorem getArtifacts_copies_bindings :
  forall (h : heap) (tracked : ref) (ms : list mutation),
    closed h ->
    is_Some (maps h !! tracked) ->
    Forall (fun m => own m = true) ms ->
    let returned := Heap.getArtifacts h tracked in
    let h' := foldl (mutate returned.2) returned.1 ms in
    returned.2 <> tracked /\
    read returned.1 returned.2 = read h tracked /\
    maps h' !! tracked = maps h !! tracked /\
    read h' tracked = read h tracked /\
    read (Heap.getArtifacts h' tracked).1 (Heap.getArtifacts h' tracked).2
    = read h tracked.
Proof.
  intros h tracked ms Hclosed Hin Hown returned h'.
  pose proof (getArtifacts_new h tracked Hin) as Hne.
  assert (preserves tracked h h') as Hpres.
  { eapply preserves_trans; [by apply getArtifacts_preserves|].
    by apply mutations_own_preserve. }
  split; [done|]. split; [apply getArtifacts_copy|].
  split; [apply Hpres|].
  split; [by apply preserves_read|].
  rewrite getArtifacts_copy. by apply preserves_read.
Qed.

Lemma getArtifacts_copies_bindings_witness :
  let ms := [Delete "0xabc1";
             AssignNew "0xdef2"
               (trackedEntry Sample.JSON_parse Sample.project Sample.counter "0xdef2")] in
  let returned := Heap.getArtifacts sample sampleTracked in
  let h' := foldl (mutate returned.2) returned.1 ms in
  read h' sampleTracked = read sample sampleTracked /\
  read (Heap.getArtifacts h' sampleTracked).1 (Heap.getArtifacts h' sampleTracked).2
  = read sample sampleTracked.
Proof.
  intros ms returned h'.
  destruct (getArtifacts_copies_bindings sample sampleTracked ms)
    as (_ & _ & _ & Hread & Hagain).
  - exact sample_closed.
  - eexists. reflexivity.
  - repeat constructor.
  - split; [exact Hread|exact Hagain].
Defined.

(** C8 as stated fails: the records are shared.  Pushing an address on
    the [deployments] of an entry reached through the returned object
    changes what the tracker holds and what the next [getArtifacts]
    returns. *)
Lemma getArtifacts_shares_records :
  let returned := Heap.getArtifacts sample sampleTracked in
  let h' := mutate returned.2 returned.1 (Update "0xabc1" (push_deployment "0xBAD")) in
  ArtifactData.deployments <$> (read sample sampleTracked !! "0xabc1")
  = Some ["0xabc1"] /\
  ArtifactData.deployments <$> (read h' sampleTracked !! "0xabc1")
  = Some ["0xabc1"; "0xBAD"] /\
  ArtifactData.deployments <$>
    (read (Heap.getArtifacts h' sampleTracked).1 (Heap.getArtifacts h' sampleTracked).2
     !! "0xabc1")
  = Some ["0xabc1"; "0xBAD"].
Proof. by vm_compute. Qed.

End Sharing.

(** The heap model agrees with the value-level one on the sample
    tracker. *)
Example sample_reads_as_deployed :
  Heap.read Heap.sample Heap.sampleTracked = getArtifacts Sample.deployed.
Proof. by vm_compute. Qed.

(** ** Injection into the page ([injectArtifactsScript]) *)

(** [pat] occurs in [s] after [before] and before [after], and nowhere
    earlier. *)
Definition first_occurrence (pat s before after : string) : Prop :=
  s = before +:+ pat +:+ after /\
  forall b1 c b2,
    before = b1 +:+ String c b2 ->
    Str.startsWith (String c b2 +:+ pat +:+ after) pat = false.

Lemma find_first_eq s pat :
  Str.find_first s pat =
  if Str.startsWith s pat then Some (EmptyString, Str.drop (String.length pat) s)
  else match s with
       | EmptyString => None
       | String c s' =>
           match Str.find_first s' pat with
           | Some (before, after) => Some (String c before, after)
           | None => None
           end
       end.
Proof. by destruct s. Qed.

Lemma drop_app p s : Str.drop (String.length p) (p +:+ s) = s.
Proof. induction p as [|c p IH]; [by destruct s|]. apply IH. Qed.

Lemma find_first_None s pat :
  Str.includes s pat = false -> Str.find_first s pat = None.
Proof.
  induction s as [|c s IH]; rewrite find_first_eq; simpl;
    intros [-> H]%orb_false_iff; [done|].
  by rewrite (IH H).
Qed.

Lemma find_first_Some pat s before after :
  first_occurrence pat s before after ->
  Str.find_first s pat = Some (before, after).
Proof.
  intros [-> Hfirst]. induction before as [|c before IH]; rewrite find_first_eq.
  - rewrite StrFacts.app_nil_l, StrFacts.startsWith_app. by rewrite drop_app.
  - rewrite (Hfirst EmptyString c before eq_refl).
    rewrite StrFacts.app_cons, IH; [done|].
    intros b1 c' b2 ->. apply (Hfirst (String c b1) c' b2). by rewrite StrFacts.app_cons.
Qed.

(** What [replace] does to the replacement text ["<body>" + scriptTag]. *)
Lemma substitute_body_prefix before after rest :
  Str.substitute "<body>" before after ("<body>" +:+ rest)
  = "<body>" +:+ Str.substitute "<body>" before after rest.
Proof. reflexivity. Qed.

Lemma substitute_plain matched before after replacement :
  Str.includes replacement "$" = false ->
  Str.substitute matched before after replacement = replacement.
Proof.
  induction replacement as [|c rest IH]; [done|]. simpl.
  destruct (Ascii.eqb c "$") eqn:E; simpl; [done|].
  intros H. by rewrite (IH H).
Qed.

Lemma injectArtifactsScript_nonempty (artifacts : AddressMap) html :
  artifacts <> ∅ ->
  injectArtifactsScript (Some (Ok (Some artifacts))) html
  = Str.replace html "<body>" ("<body>" +:+ scriptTagOf artifacts).
Proof.
  intros Hne. unfold injectArtifactsScript.
  apply map_size_non_empty_iff in Hne.
  by destruct (size artifacts).
Qed.

(** C10.  A page without the literal [<body>] is returned as it is,
    whatever the loader gives.  In a page with the literal, the script is
    inserted right after its first occurrence and the rest of the page is
    as before: the result is the text before that occurrence, [<body>],
    the inserted script, and the text after; the inserted script is the
    script tag (verbatim when it has no ["$"]). *)
Theorem injectArtifactsScript_first_literal_body :
  forall (loader : option (outcome (option AddressMap))) (html : string),
    (Str.includes html "<body>" = false ->
     injectArtifactsScript loader html = html) /\
    (forall (artifacts : AddressMap) (before after : string),
        loader = Some (Ok (Some artifacts)) ->
        artifacts <> ∅ ->
        first_occurrence "<body>" html before after ->
        injectArtifactsScript loader html
        = before +:+ "<body>"
          +:+ Str.substitute "<body>" before after (scriptTagOf artifacts)
          +:+ after /\
        (Str.includes (scriptTagOf artifacts) "$" = false ->
         injectArtifactsScript loader html
         = before +:+ "<body>" +:+ scriptTagOf artifacts +:+ after)).
Proof.
  intros loader html. split.
  - intros Hnone. destruct loader as [[[artifacts|]|]|]; try done.
    simpl. destruct (size artifacts =? 0); [done|].
    unfold Str.replace. by rewrite (find_first_None _ _ Hnone).
  - intros artifacts before after -> Hne Hfirst.
    rewrite (injectArtifactsScript_nonempty _ _ Hne). unfold Str.replace.
    rewrite (find_first_Some _ _ _ _ Hfirst), substitute_body_prefix.
    split.
    + apply (f_equal (String.append before)), StrFacts.app_assoc.
    + intros Hplain.
      rewrite (substitute_plain "<body>" before after (scriptTagOf artifacts) Hplain).
      apply (f_equal (String.append before)), StrFacts.app_assoc.
Qed.

(** * Further properties of the code *)

(** ** The network hook ([onRequest]) as far as it drives the tracker *)

(** The first parameter of an [eth_sendTransaction] request. *)
Record TxParams : Type := mkTxParams {
  tx_from : option string;
  tx_to : option string;
  tx_data : option string
}.

(** The fields of a transaction receipt that the hook tests; the others
    are only printed. *)
Record Receipt : Type := mkReceipt {
  transactionHash : string;
  blockNumber : option string;
  contractAddress : option string
}.

(** A JSON-RPC request with its result, as [onRequest] sees it after
    [next] has returned.  A receipt comes with the file system as it is
    then. *)
Inductive rpc : Type :=
  | SendTransaction (result : option string) (params : option TxParams)
  | GetTransactionReceipt (root : node) (result : option Receipt)
  | OtherMethod.

(** Truthiness of an optional string. *)
Definition nonempty (s : option string) : bool :=
  match s with
  | Some s => negb (String.eqb s EmptyString)
  | None => false
  end.

Section Hook.

Variable JSON_parse : string -> option json.

(** What [onRequest] does to the module-level [tracker] ([None] is
    [null]: the explorer was not started). *)
Definition onRequest (tracker : option DeploymentTracker) (request : rpc)
  : option DeploymentTracker :=
  match request with
  | SendTransaction txHash txParams =>
      match tracker, txHash, txParams with
      | Some t, Some h, Some p =>
          if nonempty txHash && nonempty (tx_data p) && negb (nonempty (tx_to p))
          then Some (trackSendTransaction t h (default EmptyString (tx_data p)))
          else tracker
      | _, _, _ => tracker
      end
  | GetTransactionReceipt root receipt =>
      match tracker, receipt with
      | Some t, Some r =>
          if nonempty (blockNumber r) && nonempty (contractAddress r)
          then Some (trackDeploymentReceipt JSON_parse root t (transactionHash r)
                       (default EmptyString (contractAddress r)))
          else tracker
      | _, _ => tracker
      end
  | OtherMethod => tracker
  end.

(** The tracker after a sequence of requests. *)
Definition onRequests (tracker : option DeploymentTracker) (requests : list rpc)
  : option DeploymentTracker :=
  foldl onRequest tracker requests.

End Hook.

(** ** Well-formed tracker states *)

(** An entry that [trackDeploymentReceipt] can have stored under [key]
    for one of [artifacts]. *)
Definition entry_of (artifacts : list CompiledArtifact.t) (key : string)
  (e : ArtifactData.t) : Prop :=
  exists a address,
    In a artifacts /\
    2 < String.length (CompiledArtifact.bytecode a) /\
    ArtifactData.contractName e = CompiledArtifact.contractName a /\
    ArtifactData.abi e = CompiledArtifact.abi a /\
    ArtifactData.deployments e = [address] /\
    key = Str.toLowerCase address.

Definition tracked_wf (t : DeploymentTracker) : Prop :=
  forall key e, trackedDeployments t !! key = Some e -> entry_of (compiledArtifacts t) key e.

Definition pending_nonempty (t : DeploymentTracker) : Prop :=
  forall h d, pendingTxs t !! h = Some d -> d <> EmptyString.

Lemma lower_char_idem c : Str.lower_char (Str.lower_char c) = Str.lower_char c.
Proof. by destruct c as [[] [] [] [] [] [] [] []]. Qed.

Lemma toLowerCase_idem s : Str.toLowerCase (Str.toLowerCase s) = Str.toLowerCase s.
Proof. induction s as [|c s IH]; [done|]. simpl. by rewrite lower_char_idem, IH. Qed.

Section TrackerMore.

Variable JSON_parse : string -> option json.

(** The three outcomes of a receipt. *)
Lemma trackDeploymentReceipt_cases root t h address :
  (trackDeploymentReceipt JSON_parse root t h address = t /\
   (pendingTxs t !! h = None \/ pendingTxs t !! h = Some EmptyString)) \/
  (exists data,
      pendingTxs t !! h = Some data /\ data <> EmptyString /\
      findMatchingArtifact (compiledArtifacts t) data = None /\
      trackDeploymentReceipt JSON_parse root t h address
      = {| compiledArtifacts := compiledArtifacts t;
           trackedDeployments := trackedDeployments t;
           pendingTxs := delete h (pendingTxs t) |}) \/
  (exists data a,
      pendingTxs t !! h = Some data /\ data <> EmptyString /\
      findMatchingArtifact (compiledArtifacts t) data = Some a /\
      trackDeploymentReceipt JSON_parse root t h address
      = {| compiledArtifacts := compiledArtifacts t;
           trackedDeployments :=
             <[Str.toLowerCase address := trackedEntry JSON_parse root a address]>
               (trackedDeployments t);
           pendingTxs := delete h (pendingTxs t) |}).
Proof.
  unfold trackDeploymentReceipt.
  destruct (pendingTxs t !! h) as [data|] eqn:Ep; [|by left; split; [|left]].
  destruct (String.eqb data EmptyString) eqn:Ed.
  - apply String.eqb_eq in Ed as ->. left. split; [done|by right].
  - apply String.eqb_neq in Ed. right.
    destruct (findMatchingArtifact (compiledArtifacts t) data) as [a|] eqn:Ef.
    + right. by exists data, a.
    + left. by exists data.
Qed.

(** [trackSendTransaction] overwrites: of two submissions under one hash
    the last one is kept; submissions under different hashes commute, and
    no submission changes what [getArtifacts] returns. *)
Theorem trackSendTransaction_last_write_wins :
  forall (t : DeploymentTracker) (h h' d1 d2 : string),
    trackSendTransaction (trackSendTransaction t h d1) h d2
    = trackSendTransaction t h d2 /\
    (h <> h' ->
     trackSendTransaction (trackSendTransaction t h d1) h' d2
     = trackSendTransaction (trackSendTransaction t h' d2) h d1) /\
    pendingTxs (trackSendTransaction (trackSendTransaction t h d1) h d2) !! h = Some d2 /\
    getArtifacts (trackSendTransaction t h d1) = getArtifacts t.
Proof.
  intros t h h' d1 d2. unfold trackSendTransaction, getArtifacts. simpl.
  split; [by rewrite insert_insert_eq|].
  split; [intros Hne; f_equal; by apply insert_insert_ne|].
  split; [apply lookup_insert_eq|done].
Qed.

(** A second receipt for the same hash changes nothing, whatever address
    it carries and whatever the file system has become. *)
Theorem trackDeploymentReceipt_idempotent :
  forall (root root' : node) (t : DeploymentTracker) (h address address' : string),
    trackDeploymentReceipt JSON_parse root'
      (trackDeploymentReceipt JSON_parse root t h address) h address'
    = trackDeploymentReceipt JSON_parse root t h address.
Proof.
  intros root root' t h address address'.
  destruct (trackDeploymentReceipt_cases root t h address)
    as [[-> Hp]|[(data & _ & _ & _ & ->)|(data & a & _ & _ & _ & ->)]].
  - unfold trackDeploymentReceipt. by destruct Hp as [->| ->].
  - unfold trackDeploymentReceipt at 1. simpl. by rewrite lookup_delete_eq.
  - unfold trackDeploymentReceipt at 1. simpl. by rewrite lookup_delete_eq.
Qed.

(** A receipt touches one pending hash and at most one tracked key: the
    compiled artifacts, every other pending entry and every other
    tracked entry are as before, and no entry becomes pending. *)
Theorem trackDeploymentReceipt_frame :
  forall (root : node) (t : DeploymentTracker) (h address : string),
    let t' := trackDeploymentReceipt JSON_parse root t h address in
    compiledArtifacts t' = compiledArtifacts t /\
    (forall h', h' <> h -> pendingTxs t' !! h' = pendingTxs t !! h') /\
    (forall h' d, pendingTxs t' !! h' = Some d -> pendingTxs t !! h' = Some d) /\
    (forall k, k <> Str.toLowerCase address ->
               trackedDeployments t' !! k = trackedDeployments t !! k).
Proof.
  intros root t h address t'. subst t'.
  destruct (trackDeploymentReceipt_cases root t h address)
    as [[-> _]|[(data & _ & _ & _ & ->)|(data & a & _ & _ & _ & ->)]]; simpl.
  - done.
  - repeat split; try done.
    + intros h' Hne. by rewrite lookup_delete_ne.
    + intros h' d Hd. by apply lookup_delete_Some in Hd as [_ ?].
  - repeat split; try done.
    + intros h' Hne. by rewrite lookup_delete_ne.
    + intros h' d Hd. by apply lookup_delete_Some in Hd as [_ ?].
    + intros k Hne. by rewrite lookup_insert_ne.
Qed.

(** A deployment whose creation data matches no compiled artifact is
    dropped at its receipt: the hash is no longer pending and nothing is
    tracked for it. *)
Theorem trackDeploymentReceipt_no_match :
  forall (root : node) (t : DeploymentTracker) (h data address : string),
    pendingTxs t !! h = Some data ->
    data <> EmptyString ->
    Forall (fun a => ~ artifact_matches data a) (compiledArtifacts t) ->
    let t' := trackDeploymentReceipt JSON_parse root t h address in
    pendingTxs t' = delete h (pendingTxs t) /\
    pendingTxs t' !! h = None /\
    getArtifacts t' = getArtifacts t.
Proof.
  intros root t h data address Hp Hd Hnone t'. subst t'.
  apply findMatchingArtifact_None in Hnone.
  unfold trackDeploymentReceipt. rewrite Hp, Hnone.
  apply String.eqb_neq in Hd. rewrite Hd. simpl.
  split; [done|]. split; [apply lookup_delete_eq|done].
Qed.

(** Edge of the guard [if (!data) return]: a submission whose data is
    the empty string is never consumed.  Its receipt leaves it pending
    and tracks nothing. *)
Theorem trackDeploymentReceipt_empty_data_stays_pending :
  forall (root : node) (t : DeploymentTracker) (h address : string),
    trackDeploymentReceipt JSON_parse root (trackSendTransaction t h EmptyString) h address
    = trackSendTransaction t h EmptyString /\
    pendingTxs (trackDeploymentReceipt JSON_parse root
                  (trackSendTransaction t h EmptyString) h address) !! h
    = Some EmptyString.
Proof.
  intros root t h address.
  assert (trackDeploymentReceipt JSON_parse root (trackSendTransaction t h EmptyString) h address
          = trackSendTransaction t h EmptyString) as ->.
  { unfold trackDeploymentReceipt. simpl. by rewrite lookup_insert_eq. }
  split; [done|]. simpl. apply lookup_insert_eq.
Qed.

End TrackerMore.

(** ** Invariants of the tracker under the hook *)

Section Reachable.

Variable JSON_parse : string -> option json.

Definition tracker_inv (t : DeploymentTracker) : Prop :=
  tracked_wf t /\ pending_nonempty t.

Lemma findMatchingArtifact_In artifacts data a :
  findMatchingArtifact artifacts data = Some a ->
  In a artifacts /\ 2 < String.length (CompiledArtifact.bytecode a).
Proof.
  intros (before & after & -> & [Hlen _] & _)%findMatchingArtifact_Some.
  split; [|done]. apply in_or_app. right. by left.
Qed.

Lemma trackSendTransaction_inv t h data :
  data <> EmptyString -> tracker_inv t -> tracker_inv (trackSendTransaction t h data).
Proof.
  intros Hd [Hwf Hp]. split; [done|].
  intros h' d. unfold trackSendTransaction. simpl.
  destruct (decide (h = h')) as [->|Hne].
  - rewrite lookup_insert_eq. by intros [= <-].
  - rewrite lookup_insert_ne by done. apply Hp.
Qed.

Lemma trackDeploymentReceipt_inv root t h address :
  tracker_inv t -> tracker_inv (trackDeploymentReceipt JSON_parse root t h address).
Proof.
  intros [Hwf Hp].
  destruct (trackDeploymentReceipt_cases JSON_parse root t h address)
    as [[-> _]|[(data & _ & _ & _ & ->)|(data & a & _ & _ & Hfind & ->)]].
  - done.
  - split; [done|]. intros h' d Hd. simpl in Hd.
      apply lookup_delete_Some in Hd as [_ Hd]. by eapply Hp.
  - split.
    + intros key e. simpl. destruct (decide (Str.toLowerCase address = key)) as [<-|Hne].
      * rewrite lookup_insert_eq. intros [= <-].
        destruct (findMatchingArtifact_In _ _ _ Hfind) as [Hin Hlen].
        by exists a, address.
      * rewrite lookup_insert_ne by done. apply Hwf.
    + intros h' d Hd. simpl in Hd.
      apply lookup_delete_Some in Hd as [_ Hd]. by eapply Hp.
Qed.

Lemma trackDeploymentReceipt_artifacts root t h address :
  compiledArtifacts (trackDeploymentReceipt JSON_parse root t h address)
  = compiledArtifacts t.
Proof.
  by destruct (trackDeploymentReceipt_cases JSON_parse root t h address)
    as [[-> _]|[(data & _ & _ & _ & ->)|(data & a & _ & _ & _ & ->)]].
Qed.

Lemma onRequest_inv t request :
  tracker_inv t ->
  exists t', onRequest JSON_parse (Some t) request = Some t' /\
             compiledArtifacts t' = compiledArtifacts t /\ tracker_inv t'.
Proof.
  intros Hinv. destruct request as [txHash txParams|root receipt|]; simpl.
  - destruct txHash as [h|]; [|by exists t].
    destruct txParams as [p|]; [|by exists t].
    destruct (nonempty (Some h) && nonempty (tx_data p) && negb (nonempty (tx_to p))) eqn:E;
      [|by exists t].
    apply andb_true_iff in E as [[_ Hd]%andb_true_iff _].
    destruct (tx_data p) as [d|]; [|done]. simpl in Hd.
    apply negb_true_iff, String.eqb_neq in Hd.
    eexists. split; [done|]. split; [done|]. by apply trackSendTransaction_inv.
  - destruct receipt as [r|]; [|by exists t].
    destruct (nonempty (blockNumber r) && nonempty (contractAddress r)); [|by exists t].
    eexists. split; [done|].
    split; [apply trackDeploymentReceipt_artifacts|by apply trackDeploymentReceipt_inv].
  - by exists t.
Qed.

Lemma onRequests_inv requests :
  forall t,
    tracker_inv t ->
    exists t', onRequests JSON_parse (Some t) requests = Some t' /\
               compiledArtifacts t' = compiledArtifacts t /\ tracker_inv t'.
Proof.
  induction requests as [|request requests IH]; intros t Hinv; simpl.
  - by exists t.
  - destruct (onRequest_inv t request Hinv) as (t1 & Ht1 & Ha1 & Hinv1).
    destruct (IH t1 Hinv1) as (t' & Ht' & Ha' & Hinv').
    exists t'. unfold onRequests in *. simpl. rewrite Ht1.
    split; [done|]. split; [congruence|done].
Qed.

Lemma newDeploymentTracker_inv root t :
  newDeploymentTracker JSON_parse root = Ok t -> tracker_inv t.
Proof.
  unfold newDeploymentTracker. destruct (loadCompiledArtifacts JSON_parse root); [|done].
  intros [= <-]. split; intros k e; simpl; by rewrite lookup_empty.
Qed.

(** Whatever requests the hook has seen since the tracker was created,
    every entry that [getArtifacts] returns was built from one of the
    compiled artifacts (one with more bytecode than [0x]), lists one
    deployment address, and is filed under that address in lower case;
    the compiled artifacts are those of the initial scan. *)
Theorem tracked_entries_well_formed :
  forall (root : node) (t0 : DeploymentTracker) (requests : list rpc),
    newDeploymentTracker JSON_parse root = Ok t0 ->
    exists t,
      onRequests JSON_parse (Some t0) requests = Some t /\
      compiledArtifacts t = compiledArtifacts t0 /\
      forall key e,
        getArtifacts t !! key = Some e ->
        entry_of (compiledArtifacts t0) key e /\ Str.toLowerCase key = key.
Proof.
  intros root t0 requests Hnew.
  destruct (onRequests_inv requests t0 (newDeploymentTracker_inv _ _ Hnew))
    as (t & Ht & Ha & Hwf & _).
  exists t. split; [done|]. split; [done|].
  intros key e He. apply Hwf in He. rewrite Ha in He. split; [done|].
  destruct He as (a & address & _ & _ & _ & _ & _ & ->). apply toLowerCase_idem.
Qed.


End Reachable.

(** ** Enrichment *)

(** The part of an entry that is built from the matched artifact and the
    receipt alone. *)
Definition entry_core (e : ArtifactData.t)
  : json * string * option string * option string * list string :=
  (ArtifactData.abi e, ArtifactData.contractName e, ArtifactData.sourceName e,
   ArtifactData.buildInfoId e, ArtifactData.deployments e).

Lemma split_nonempty sep s : Str.split sep s <> [].
Proof.
  destruct s as [|c s]; [done|]. simpl.
  destruct (Ascii.eqb c sep); [done|]. by destruct (Str.split sep s).
Qed.

Lemma split_app_sep sep d f :
  Str.split sep (d +:+ String sep f) = Str.split sep d ++ Str.split sep f.
Proof.
  induction d as [|c d IH].
  - rewrite StrFacts.app_nil_l. simpl. by rewrite Ascii.eqb_refl.
  - rewrite StrFacts.app_cons. simpl. rewrite IH.
    destruct (Ascii.eqb c sep); [done|].
    pose proof (split_nonempty sep d). by destruct (Str.split sep d).
Qed.

Lemma split_no_sep sep f :
  Str.includes f (String sep EmptyString) = false -> Str.split sep f = [f].
Proof.
  induction f as [|c f IH]; [done|]. simpl.
  intros [Hc Hf]%orb_false_iff.
  destruct (Ascii.eqb c sep); [done|]. by rewrite (IH Hf).
Qed.

(** The file looked for is the last segment of the source name. *)
Lemma sourceFileName_basename dir f :
  Str.includes f "/" = false -> f <> EmptyString ->
  sourceFileName (dir +:+ String "/" f) = Some f.
Proof.
  intros Hf Hne. unfold sourceFileName.
  assert (String.eqb (dir +:+ String "/" f) EmptyString = false) as ->.
  { apply String.eqb_neq. by destruct dir. }
  rewrite split_app_sep, (split_no_sep _ _ Hf), last_snoc.
  apply String.eqb_neq in Hne. by rewrite Hne.
Qed.

Section Enrichment.

Variable JSON_parse : string -> option json.

(** The source shown for a deployment is looked up by the base name of
    the artifact's source file only: whatever directory the source name
    gives, the file read is [contracts/<base name>] under the project
    root, so two artifacts whose sources have the same file name get the
    same source code. *)
Theorem trackedSourceCode_by_basename :
  forall (root : node) (a b : CompiledArtifact.t) (dir dir' f : string),
    Str.includes f "/" = false ->
    f <> EmptyString ->
    CompiledArtifact.sourceName a = dir +:+ String "/" f ->
    CompiledArtifact.sourceName b = dir' +:+ String "/" f ->
    trackedSourceCode root a = trackedSourceCode root b /\
    trackedSourceCode root a =
      (if Fs.existsSync root ["contracts"; f]
       then caught (Fs.readFileSync root ["contracts"; f])
       else None).
Proof.
  intros root a b dir dir' f Hf Hne Ha Hb. unfold trackedSourceCode.
  by rewrite Ha, Hb, !(sourceFileName_basename _ _ Hf Hne).
Qed.

(** Missing or unreadable source and build-info files never change
    whether a deployment is tracked: two runs of a receipt that differ
    only in the file system agree on the pending map, on the tracked
    keys and on everything in the entries but [sourceCode] and
    [buildInfo]. *)
Theorem trackDeploymentReceipt_files_only_enrich :
  forall (root root' : node) (t : DeploymentTracker) (h address : string),
    let t1 := trackDeploymentReceipt JSON_parse root t h address in
    let t2 := trackDeploymentReceipt JSON_parse root' t h address in
    pendingTxs t1 = pendingTxs t2 /\
    dom (trackedDeployments t1) = dom (trackedDeployments t2) /\
    entry_core <$> trackedDeployments t1 = entry_core <$> trackedDeployments t2.
Proof.
  intros root root' t h address t1 t2. subst t1 t2. unfold trackDeploymentReceipt.
  destruct (pendingTxs t !! h) as [data|]; [|done].
  destruct (String.eqb data EmptyString); [done|].
  destruct (findMatchingArtifact (compiledArtifacts t) data) as [a|]; [|done].
  simpl. split; [done|]. split.
  - by rewrite !dom_insert_L.
  - by rewrite !fmap_insert.
Qed.

End Enrichment.

(** ** Examples on the sample project *)

Definition sampleRequests : list rpc :=
  [SendTransaction (Some "0xaa") (Some (mkTxParams (Some "0x01") None (Some "0x6001")));
   SendTransaction (Some "0xbb") (Some (mkTxParams (Some "0x01") (Some "0xabc1") (Some "0x371303c0")));
   GetTransactionReceipt Sample.project
     (Some (mkReceipt "0xaa" (Some "0x1") (Some "0xABC1")));
   OtherMethod].

Lemma newDeploymentTracker_sample :
  newDeploymentTracker Sample.JSON_parse Sample.project = Ok Sample.tracker.
Proof. by vm_compute. Qed.

Lemma tracked_entries_well_formed_witness :
  exists t,
    onRequests Sample.JSON_parse (Some Sample.tracker) sampleRequests = Some t /\
    forall key e, getArtifacts t !! key = Some e -> Str.toLowerCase key = key.
Proof.
  destruct (tracked_entries_well_formed Sample.JSON_parse Sample.project
              Sample.tracker sampleRequests newDeploymentTracker_sample)
    as (t & Ht & _ & Hentries).
  exists t. split; [exact Ht|]. intros key e He. exact (proj2 (Hentries key e He)).
Defined.


Lemma trackDeploymentReceipt_no_match_witness :
  let t := trackSendTransaction Sample.tracker "0xcc" "0xfeed" in
  pendingTxs (trackDeploymentReceipt Sample.JSON_parse Sample.project t "0xcc" "0xABC1")
  !! "0xcc" = None /\
  getArtifacts (trackDeploymentReceipt Sample.JSON_parse Sample.project t "0xcc" "0xABC1")
  = getArtifacts t.
Proof.
  intros t.
  destruct (trackDeploymentReceipt_no_match Sample.JSON_parse Sample.project t
              "0xcc" "0xfeed" "0xABC1") as (_ & Hgone & Hsame).
  - reflexivity.
  - discriminate.
  - repeat constructor; intros [Hlen [rest Hrest]]; simpl in *;
      [discriminate Hrest|lia].
  - split; [exact Hgone|exact Hsame].
Defined.

Lemma trackedSourceCode_by_basename_witness :
  let moved :=
    CompiledArtifact.mk "Counter" "contracts/legacy/Counter.sol" (JArr []) "0x6002" None in
  trackedSourceCode Sample.project Sample.counter = trackedSourceCode Sample.project moved.
Proof.
  intros moved.
  apply (trackedSourceCode_by_basename Sample.project Sample.counter moved
           "contracts" "contracts/legacy" "Counter.sol").
  - reflexivity.
  - discriminate.
  - reflexivity.
  - reflexivity.
Defined.

(** ** The address list and the record loader ([loadArtifacts]) *)

(** The contract name that [loadArtifacts] reads off a key
    [module#contractName] of the address list: the second segment, when
    there is one and it is not empty. *)
Definition contract_name (moduleContract : string) : option string :=
  match Str.split "#" moduleContract !! 1 with
  | Some n => if String.eqb n EmptyString then None else Some n
  | None => None
  end.




(** A key [module#contractName] names [contractName]. *)
Lemma contract_name_qualified m c :
  Str.includes m "#" = false -> Str.includes c "#" = false -> c <> EmptyString ->
  contract_name (m +:+ String "#" c) = Some c.
Proof.
  intros Hm Hc Hne. unfold contract_name.
  rewrite split_app_sep, (split_no_sep _ _ Hm), (split_no_sep _ _ Hc). simpl.
  apply String.eqb_neq in Hne. by rewrite Hne.
Qed.

Example contractDeployments_two_modules :
  contractDeploymentsOf
    [("A#Counter", JStr "0x01"); ("B#Token", JStr "0x02"); ("C#Counter", JStr "0x03");
     ("NoSeparator", JStr "0x04")] !! "Counter" = Some (JStr "0x03").
Proof. by vm_compute. Qed.

(** An entry of the map that [loadArtifacts] builds from the address
    table [deployments]: it lists the one address recorded for its
    contract and is filed under that address in lower case. *)
Definition record_entry (deployments : gmap string json) (key : string)
  (e : ArtifactData.t) : Prop :=
  exists address,
    deployments !! ArtifactData.contractName e = Some (JStr address) /\
    address <> EmptyString /\
    ArtifactData.deployments e = [address] /\
    key = Str.toLowerCase address.

(** An address list that cannot be used: a directory, an unreadable
    file, text that does not parse, or the JSON value [null]. *)
Definition unusable (JSON_parse : string -> option json) (x : node) : Prop :=
  match x with
  | Dir _ | File None => True
  | File (Some text) => JSON_parse text = None \/ JSON_parse text = Some JNull
  end.

Section Records.

Variable JSON_parse : string -> option json.

Lemma loadArtifactFile_entries root path deployments x m m' :
  loadArtifactFile JSON_parse root path deployments x m = Ok m' ->
  (forall key e, m !! key = Some e -> record_entry deployments key e) ->
  forall key e, m' !! key = Some e -> record_entry deployments key e.
Proof.
  unfold loadArtifactFile. intros Hload Hm.
  destruct (match x with File (Some text) => JSON_parse text | _ => None end)
    as [artifact|]; [|by simplify_eq/=].
  destruct (negb (Json.truthy (Json.get "contractName" artifact))) eqn:En.
  { destruct artifact; by simplify_eq/=. }
  set (name := from_option as_string EmptyString (Json.get "contractName" artifact)) in *.
  destruct (negb (Json.truthy (deployments !! name))) eqn:Ea.
  { destruct artifact; by simplify_eq/=. }
  destruct (deployments !! name) as [[| | |address| |]|] eqn:Ed;
    try (destruct artifact; discriminate Hload).
  assert (address <> EmptyString) as Hne.
  { simpl in Ea. by apply negb_false_iff, negb_true_iff, String.eqb_neq in Ea. }
  assert (exists d, m' = <[Str.toLowerCase address := d]> m /\
                    ArtifactData.contractName d = name /\
                    ArtifactData.deployments d = [address]) as (d & -> & Hname & Hdep).
  { destruct artifact; try discriminate Hload; injection Hload as <-;
      eexists; split; try reflexivity; done. }
  intros key e. destruct (decide (Str.toLowerCase address = key)) as [<-|Hk].
  - rewrite lookup_insert_eq. intros [= <-]. exists address. by rewrite Hname.
  - rewrite lookup_insert_ne by done. apply Hm.
Qed.

Lemma loadArtifacts_fold_entries root path deployments files :
  forall acc m',
    fold_left
      (fun (acc : outcome AddressMap) '((_, x) : string * node) =>
         obind acc (loadArtifactFile JSON_parse root path deployments x))
      files acc = Ok m' ->
    exists m, acc = Ok m /\
      ((forall key e, m !! key = Some e -> record_entry deployments key e) ->
       forall key e, m' !! key = Some e -> record_entry deployments key e).
Proof.
  induction files as [|[f x] files IH]; intros acc m' Hfold; simpl in Hfold.
  - exists m'. by split.
  - destruct (IH _ _ Hfold) as (m1 & Hstep & Hm1).
    destruct acc as [m|]; [|done]. simpl in Hstep.
    exists m. split; [done|]. intros Hm. apply Hm1.
    by eapply loadArtifactFile_entries.
Qed.

Lemma loadArtifacts_entries root m :
  loadArtifacts JSON_parse deploymentPathOf root = Ok m ->
  Fs.existsSync root (deploymentPathOf ++ ["deployed_addresses.json"]) = true ->
  exists (addresses : json) (entries : list (string * json)),
    read_json JSON_parse root (deploymentPathOf ++ ["deployed_addresses.json"])
    = Ok addresses /\
    Object_entries addresses = Ok entries /\
    forall key e,
      m !! key = Some e -> record_entry (contractDeploymentsOf entries) key e.
Proof.
  intros Hload Ex. revert Hload. unfold loadArtifacts. rewrite Ex. cbn [negb].
  destruct (read_json JSON_parse root _) as [addresses|]; [|done]. cbn [obind].
  destruct (Object_entries addresses) as [entries|] eqn:Eentries; [|done]. cbn [obind].
  intros Hload. exists addresses, entries. split; [done|]. split; [done|].
  destruct (negb (Fs.existsSync root (deploymentPathOf ++ ["artifacts"]))).
  { injection Hload as <-. intros key e. by rewrite lookup_empty. }
  destruct (Fs.readdirSync root (deploymentPathOf ++ ["artifacts"])) as [listing|];
    [|done].
  cbn [obind] in Hload.
  destruct (fold_left _ _ _) as [m0|] eqn:Hfold; [|done].
  injection Hload as <-.
  destruct (loadArtifacts_fold_entries _ _ _ _ _ _ Hfold) as (m1 & [= <-] & Hm).
  apply Hm. intros key e. by rewrite lookup_empty.
Qed.

Lemma loadIgnitionArtifacts_Some root m :
  loadIgnitionArtifacts JSON_parse root = Ok (Some m) ->
  loadArtifacts JSON_parse deploymentPathOf root = Ok m /\
  Fs.existsSync root (deploymentPathOf ++ ["deployed_addresses.json"]) = true.
Proof.
  unfold loadIgnitionArtifacts, findIgnitionDeployment.
  destruct (Fs.existsSync root (deploymentPathOf ++ ["deployed_addresses.json"])); [|done].
  destruct (loadArtifacts JSON_parse deploymentPathOf root); [|done].
  by intros [= ->].
Qed.

(** Every entry of the map that [loadIgnitionArtifacts] returns lists
    exactly one address, a non-empty string that the address list
    records for the entry's contract name, and is filed under that
    address in lower case. *)
Theorem loadIgnitionArtifacts_entries :
  forall (root : node) (m : AddressMap),
    loadIgnitionArtifacts JSON_parse root = Ok (Some m) ->
    exists (addresses : json) (entries : list (string * json)),
      read_json JSON_parse root (deploymentPathOf ++ ["deployed_addresses.json"])
      = Ok addresses /\
      Object_entries addresses = Ok entries /\
      forall key e,
        m !! key = Some e -> record_entry (contractDeploymentsOf entries) key e.
Proof.
  intros root m [Hload Ex]%loadIgnitionArtifacts_Some.
  by apply loadArtifacts_entries.
Qed.

Lemma artifactLoader_Some root t m :
  artifactLoader JSON_parse root t = Ok (Some m) ->
  exists structured,
    loadIgnitionArtifacts JSON_parse root = Ok structured /\
    m = getArtifacts t ∪ default ∅ structured.
Proof.
  unfold artifactLoader.
  destruct (loadIgnitionArtifacts JSON_parse root) as [structured|]; cbn [obind];
    [|discriminate].
  set (combined := getArtifacts t ∪ default ∅ structured).
  intros Hload. exists structured. split; [reflexivity|].
  destruct (0 <? size combined); [|discriminate Hload].
  injection Hload as Hm. by symmetry.
Qed.

Lemma structured_entry root structured key e :
  loadIgnitionArtifacts JSON_parse root = Ok structured ->
  default ∅ structured !! key = Some e ->
  exists address,
    ArtifactData.deployments e = [address] /\ key = Str.toLowerCase address.
Proof.
  intros Hs He.
  destruct structured as [ms|]; cbn [default from_option] in He;
    [|by rewrite lookup_empty in He].
  apply loadIgnitionArtifacts_Some in Hs as [Hs Ex].
  destruct (loadArtifacts_entries _ _ Hs Ex) as (_ & entries & _ & _ & Hentries).
  destruct (Hentries _ _ He) as (address & _ & _ & Hdep & Hkey). by exists address.
Qed.

Lemma tracked_entry t key e :
  tracked_wf t -> getArtifacts t !! key = Some e ->
  exists address,
    ArtifactData.deployments e = [address] /\ key = Str.toLowerCase address.
Proof.
  intros Hwf He.
  destruct (Hwf _ _ He) as (a & address & _ & _ & _ & _ & Hdep & Hkey).
  by exists address.
Qed.

(** The invariant of the address map that reaches the page: whatever the
    hook has seen and whatever the record holds, every key of the map
    that the aggregator returns is the lower-case form of the one
    address that its entry lists, so no key has mixed case. *)
Theorem aggregated_keys_lower_case :
  forall (root0 root : node) (t0 t : DeploymentTracker) (requests : list rpc)
         (m : AddressMap),
    newDeploymentTracker JSON_parse root0 = Ok t0 ->
    onRequests JSON_parse (Some t0) requests = Some t ->
    artifactLoader JSON_parse root t = Ok (Some m) ->
    forall key e,
      m !! key = Some e ->
      (exists address,
          ArtifactData.deployments e = [address] /\ key = Str.toLowerCase address) /\
      Str.toLowerCase key = key.
Proof.
  intros root0 root t0 t requests m Hnew Hrun Hload key e He.
  assert (exists address,
             ArtifactData.deployments e = [address] /\ key = Str.toLowerCase address)
    as (address & Hdep & ->); [|split; [by exists address|apply toLowerCase_idem]].
  destruct (onRequests_inv JSON_parse requests t0 (newDeploymentTracker_inv _ _ _ Hnew))
    as (t' & Ht' & _ & Hwf & _).
  assert (t' = t) as -> by congruence.
  destruct (artifactLoader_Some _ _ _ Hload) as (structured & Hs & ->).
  apply lookup_union_Some_raw in He as [He|[_ He]].
  - by eapply tracked_entry.
  - by eapply structured_entry.
Qed.

(** When the address list is there but cannot be used, the loader
    throws; [injectArtifactsScript] catches that and serves the page as
    it is, so the deployments that the tracker holds are not injected
    either. *)
Theorem unusable_address_list_suppresses_injection :
  forall (root : node) (x : node) (tracker : DeploymentTracker) (html : string),
    Fs.at_path root (deploymentPathOf ++ ["deployed_addresses.json"]) = Some x ->
    unusable JSON_parse x ->
    loadIgnitionArtifacts JSON_parse root = Throws /\
    artifactLoader JSON_parse root tracker = Throws /\
    injectArtifactsScript (Some (artifactLoader JSON_parse root tracker)) html = html.
Proof.
  intros root x tracker html Hx Hbad.
  assert (loadIgnitionArtifacts JSON_parse root = Throws) as Hload.
  { assert (Fs.existsSync root (deploymentPathOf ++ ["deployed_addresses.json"]) = true)
      as Hexists by (unfold Fs.existsSync; by rewrite Hx).
    assert (read_json JSON_parse root (deploymentPathOf ++ ["deployed_addresses.json"])
            = Throws \/
            read_json JSON_parse root (deploymentPathOf ++ ["deployed_addresses.json"])
            = Ok JNull) as Hread.
    { unfold read_json, Fs.readFileSync. rewrite Hx.
      destruct x as [[text|]|entries]; simpl in Hbad; auto.
      cbn [obind]. destruct Hbad as [H|H]; rewrite H; auto. }
    unfold loadIgnitionArtifacts, findIgnitionDeployment, loadArtifacts.
    cbv zeta. rewrite !Hexists. cbn [negb].
    destruct Hread as [H|H]; rewrite H; reflexivity. }
  split; [done|].
  assert (artifactLoader JSON_parse root tracker = Throws) as ->
    by (unfold artifactLoader; by rewrite Hload).
  done.
Qed.

End Records.

(** A project whose address list is cut short. *)
Definition projectCorruptRecord : node :=
  Sample.projectWith
    [("chain-31337", Dir [("deployed_addresses.json", File (Some "{"))])].

Lemma loadIgnitionArtifacts_entries_witness :
  exists address,
    ArtifactData.deployments <$> (Sample.structured !! "0xabc1") = Some [address] /\
    "0xabc1" = Str.toLowerCase address.
Proof.
  destruct (loadIgnitionArtifacts_entries Sample.JSON_parse Sample.project
              Sample.structured loadIgnitionArtifacts_sample)
    as (addresses & entries & _ & _ & Hentries).
  destruct (Hentries "0xabc1" _ eq_refl) as (address & _ & _ & Hdep & Hkey).
  exists address. split; [|exact Hkey].
  simpl in Hdep. injection Hdep as <-. reflexivity.
Defined.

Lemma unusable_address_list_suppresses_injection_witness :
  injectArtifactsScript
    (Some (artifactLoader Sample.JSON_parse projectCorruptRecord Sample.deployed))
    "<html><body></body></html>"
  = "<html><body></body></html>".
Proof.
  apply (unusable_address_list_suppresses_injection Sample.JSON_parse
           projectCorruptRecord (File (Some "{")) Sample.deployed
           "<html><body></body></html>").
  - reflexivity.
  - left. reflexivity.
Defined.

(** The tracker that the sample requests lead to. *)
Definition sampleReached : DeploymentTracker :=
  trackDeploymentReceipt Sample.JSON_parse Sample.project
    (trackSendTransaction Sample.tracker "0xaa" "0x6001") "0xaa" "0xABC1".

Lemma onRequests_sample :
  onRequests Sample.JSON_parse (Some Sample.tracker) sampleRequests = Some sampleReached.
Proof. by vm_compute. Qed.

Lemma artifactLoader_sampleReached :
  artifactLoader Sample.JSON_parse Sample.project sampleReached
  = Ok (Some (getArtifacts sampleReached ∪ Sample.structured)).
Proof. by vm_compute. Qed.

Lemma aggregated_keys_lower_case_witness :
  (exists address,
      [ "0xABC1" ] = [address] /\ "0xabc1" = Str.toLowerCase address) /\
  Str.toLowerCase "0xabc1" = "0xabc1".
Proof.
  apply (aggregated_keys_lower_case Sample.JSON_parse Sample.project Sample.project
           Sample.tracker sampleReached sampleRequests
           (getArtifacts sampleReached ∪ Sample.structured)
           newDeploymentTracker_sample onRequests_sample artifactLoader_sampleReached
           "0xabc1"
           (trackedEntry Sample.JSON_parse Sample.project Sample.counter "0xABC1")).
  reflexivity.
Defined.

(** ** The escape of closing script tags *)

(** The number of positions of [s] at which [p] starts when letter case
    is ignored: for [p = "</script>"], the closing script tags that an
    HTML parser finds in [s]. *)
Fixpoint count_ci (s p : string) : nat :=
  (if Str.startsWith_ci s p then 1 else 0) +
  match s with
  | EmptyString => 0
  | String _ s' => count_ci s' p
  end.





Definition closing : string := "</script>".
Definition escaped : string := "<\/script>".

Module EscapeFacts.














End EscapeFacts.


(** ** Replacement patterns in the injected text *)

Lemma first_occurrence_at_start pat s :
  Str.startsWith s pat = true ->
  first_occurrence pat s EmptyString (Str.drop (String.length pat) s).
Proof.
  intros [r ->]%StrFacts.startsWith_iff. split.
  - by rewrite drop_app.
  - by intros [|??] ???.
Qed.

Lemma find_first_sound pat s :
  forall before after,
    Str.find_first s pat = Some (before, after) ->
    first_occurrence pat s before after.
Proof.
  induction s as [|c s IH]; intros before after; rewrite find_first_eq.
  - destruct (Str.startsWith EmptyString pat) eqn:E; [|done].
    intros [= <- <-]. by apply first_occurrence_at_start.
  - destruct (Str.startsWith (String c s) pat) eqn:E.
    + intros [= <- <-]. by apply first_occurrence_at_start.
    + destruct (Str.find_first s pat) as [[b a]|] eqn:Ef; [|done].
      intros [= <- <-]. destruct (IH _ _ eq_refl) as [Hs Hfirst]. split.
      * change (String c s = String c (b +:+ pat +:+ a)). by f_equal.
      * intros [|c1 b1] c0 b2.
        -- rewrite StrFacts.app_nil_l. intros [= <- <-].
           change (Str.startsWith (String c (b +:+ pat +:+ a)) pat = false).
           by rewrite <- Hs.
        -- rewrite StrFacts.app_cons. intros [= <- ->]. by eapply Hfirst.
Qed.

Lemma substitute_app_plain matched before after p r :
  Str.includes p "$" = false ->
  Str.substitute matched before after (p +:+ r)
  = p +:+ Str.substitute matched before after r.
Proof.
  induction p as [|c p IH]; [done|]. simpl.
  intros [Hc Hp]%orb_false_iff. rewrite !StrFacts.app_cons.
  cbn [Str.substitute]. destruct (Ascii.eqb c "$"); [done|].
  by rewrite (IH Hp).
Qed.

Lemma scriptOpen_plain : Str.includes scriptOpen "$" = false.
Proof. by vm_compute. Qed.

Lemma substitute_backtick matched before after r :
  Str.substitute matched before after ("$`" +:+ r)
  = before +:+ Str.substitute matched before after r.
Proof. reflexivity. Qed.

(** [String.prototype.replace] expands replacement patterns in the text
    it inserts, and the encoded data is part of that text.  Wherever the
    data holds a dollar sign followed by a backquote, the page text that
    precedes [<body>] is copied into the injected script, with any
    closing script tag it contains. *)
Theorem page_text_copied_into_script :
  forall (artifacts : AddressMap) (html before after p q : string),
    artifacts <> ∅ ->
    first_occurrence "<body>" html before after ->
    safeJsonStringOf artifacts = p +:+ "$`" +:+ q ->
    Str.includes p "$" = false ->
    injectArtifactsScript (Some (Ok (Some artifacts))) html
    = before +:+ "<body>" +:+ scriptOpen +:+ p +:+ before
      +:+ Str.substitute "<body>" before after (q +:+ scriptClose) +:+ after.
Proof.
  intros artifacts html before after p q Hne Hfirst Hsafe Hp.
  rewrite (injectArtifactsScript_nonempty _ _ Hne). unfold Str.replace.
  rewrite (find_first_Some _ _ _ _ Hfirst), substitute_body_prefix.
  unfold scriptTagOf. rewrite Hsafe.
  rewrite (substitute_app_plain "<body>" before after scriptOpen
             ((p +:+ "$`" +:+ q) +:+ scriptClose) scriptOpen_plain).
  rewrite !StrFacts.app_assoc.
  rewrite (substitute_app_plain "<body>" before after p
             ("$`" +:+ q +:+ scriptClose) Hp).
  rewrite substitute_backtick.
  by rewrite !StrFacts.app_assoc.
Qed.

(** An address map one of whose sources holds [$`], and a page with a
    script element in its head. *)
Definition dollarArtifacts : AddressMap :=
  {[ "0xabc1" :=
       {| ArtifactData.abi := JArr [];
          ArtifactData.contractName := "Counter";
          ArtifactData.sourceName := None;
          ArtifactData.buildInfoId := None;
          ArtifactData.sourceCode := Some "// costs $`x` per call";
          ArtifactData.buildInfo := None;
          ArtifactData.deployments := ["0xABC1"] |} ]}.

Definition pageHead : string := "<head><script src=app.js></script></head>".
Definition pageRest : string := "<div id=root></div></body>".

Lemma page_text_copied_into_script_witness :
  exists p q,
    injectArtifactsScript (Some (Ok (Some dollarArtifacts)))
      (pageHead +:+ "<body>" +:+ pageRest)
    = pageHead +:+ "<body>" +:+ scriptOpen +:+ p +:+ pageHead
      +:+ Str.substitute "<body>" pageHead pageRest (q +:+ scriptClose) +:+ pageRest.
Proof.
  let r := eval vm_compute in (Str.find_first (safeJsonStringOf dollarArtifacts) "$`") in
  match r with
  | Some (?p, ?q) =>
      exists p, q;
      apply (page_text_copied_into_script dollarArtifacts
               (pageHead +:+ "<body>" +:+ pageRest) pageHead pageRest p q)
  end.
  - intros H. apply (f_equal (fun m => m !! "0xabc1")) in H. discriminate H.
  - apply find_first_sound. reflexivity.
  - reflexivity.
  - reflexivity.
Defined.

(** On that page the injected element is cut short: besides the tag of
    the page's own script and the one that ends the injected element,
    the served page has a closing script tag inside the injected
    script. *)
Example injected_script_cut_short :
  count_ci (pageHead +:+ "<body>" +:+ pageRest) closing = 1 /\
  count_ci (scriptTagOf dollarArtifacts) closing = 1 /\
  count_ci (injectArtifactsScript (Some (Ok (Some dollarArtifacts)))
              (pageHead +:+ "<body>" +:+ pageRest)) closing = 3.
Proof. by vm_compute. Qed.

(** ** Records reached through the copy *)

(** What the caller writes into an entry that it reaches through the
    object returned by [getArtifacts] is written into the tracker's own
    entry: the tracker reads the changed record, and so does every later
    [getArtifacts]. *)
Theorem update_through_copy_reaches_tracker :
  forall (h : Heap.heap) (tracked l : Heap.ref) (m : gmap string Heap.ref)
         (k : string) (v : ArtifactData.t) (f : ArtifactData.t -> ArtifactData.t),
    Heap.maps h !! tracked = Some m ->
    m !! k = Some l ->
    Heap.records h !! l = Some v ->
    let returned := Heap.getArtifacts h tracked in
    let h' := Heap.mutate returned.2 returned.1 (Heap.Update k f) in
    Heap.read h tracked !! k = Some v /\
    Heap.read h' tracked !! k = Some (f v) /\
    Heap.read (Heap.getArtifacts h' tracked).1 (Heap.getArtifacts h' tracked).2 !! k
    = Some (f v).
Proof.
  intros h tracked l m k v f Hm Hk Hv returned h'.
  assert (Heap.maps returned.1 !! returned.2 = Some m) as Ho.
  { simpl. by rewrite lookup_insert_eq, Hm. }
  assert (returned.2 <> tracked) as Hne by (apply getArtifacts_new; by rewrite Hm).
  assert (h' = {| Heap.maps := Heap.maps returned.1;
                  Heap.records := alter f l (Heap.records h) |}) as Hh'.
  { subst h'. unfold Heap.mutate. rewrite Ho. simpl. by rewrite Hk. }
  assert (Heap.read h' tracked !! k = Some (f v)) as Hread.
  { rewrite read_lookup, Hh'. simpl. rewrite lookup_insert_ne by done.
    rewrite Hm. simpl. rewrite Hk. simpl. by rewrite lookup_alter_eq, Hv. }
  split; [|split; [done|]].
  - rewrite read_lookup, Hm. simpl. by rewrite Hk.
  - by rewrite getArtifacts_copy.
Qed.

Lemma update_through_copy_reaches_tracker_witness :
  let returned := Heap.getArtifacts Heap.sample Heap.sampleTracked in
  let h' := Heap.mutate returned.2 returned.1
              (Heap.Update "0xabc1" (Heap.push_deployment "0xBAD")) in
  ArtifactData.deployments <$> (Heap.read h' Heap.sampleTracked !! "0xabc1")
  = Some ["0xabc1"; "0xBAD"].
Proof.
  intros returned h'.
  destruct (update_through_copy_reaches_tracker Heap.sample Heap.sampleTracked
              1%positive {["0xabc1" := 1%positive]} "0xabc1"
              (trackedEntry Sample.JSON_parse Sample.project Sample.counter "0xabc1")
              (Heap.push_deployment "0xBAD"))
    as (_ & Hread & _).
  - reflexivity.
  - reflexivity.
  - reflexivity.
  - subst h' returned. rewrite Hread. reflexivity.
Defined.

(** ** Waiting for the server ([waitForReady], [waitForHttpService]) *)

(** The result of one [fetch]: a response, with its [ok] flag, or a
    failure (the server is not listening yet). *)
Inductive fetched : Type :=
  | Responded (ok : bool)
  | Failed.

(** The loop of [waitForReady] and of [waitForHttpService], where
    [responses i] is what the [i]-th [fetch] gives, [remaining] is
    [maxAttempts - i], and the result comes with the number of fetches
    made.  The pause between two attempts is not modelled. *)
Fixpoint poll (responses : nat -> fetched) (remaining i : nat) : outcome unit * nat :=
  match remaining with
  | O => (Throws, i)
  | S r =>
      match responses i with
      | Responded true => (Ok tt, S i)
      | _ => poll responses r (S i)
      end
  end.

(** [waitForReady(maxAttempts)] *)
Definition waitForReady (responses : nat -> fetched) (maxAttempts : nat)
  : outcome unit * nat :=
  poll responses maxAttempts 0.

Definition answers_ok (r : fetched) : bool :=
  match r with
  | Responded true => true
  | _ => false
  end.

Lemma poll_spec responses remaining :
  forall i,
    (exists j, i <= j < i + remaining /\
               answers_ok (responses j) = true /\
               (forall j', i <= j' < j -> answers_ok (responses j') = false) /\
               poll responses remaining i = (Ok tt, S j)) \/
    ((forall j, i <= j < i + remaining -> answers_ok (responses j) = false) /\
     poll responses remaining i = (Throws, i + remaining)).
Proof.
  induction remaining as [|r IH]; intros i.
  - right. split; [intros j; lia|]. simpl. f_equal. lia.
  - simpl. destruct (answers_ok (responses i)) eqn:E.
    + left. exists i. split; [lia|]. split; [done|]. split; [intros j'; lia|].
      by destruct (responses i) as [[]|].
    + assert (match responses i with
              | Responded true => (Ok tt, S i)
              | _ => poll responses r (S i)
              end = poll responses r (S i)) as -> by by destruct (responses i) as [[]|].
      destruct (IH (S i)) as [(j & Hj & Hok & Hbefore & ->)|[Hnone ->]].
      * left. exists j. split; [lia|]. split; [done|]. split; [|done].
        intros j' Hj'. destruct (decide (j' = i)) as [->|]; [done|]. apply Hbefore. lia.
      * right. split; [|f_equal; lia].
        intros j Hj. destruct (decide (j = i)) as [->|]; [done|]. apply Hnone. lia.
Qed.

(** [waitForReady] returns at the first attempt that is answered with an
    [ok] response, having fetched no further; it throws exactly when none
    of the first [maxAttempts] attempts is so answered, after
    [maxAttempts] fetches (none at all when [maxAttempts] is 0). *)
Theorem waitForReady_first_ok :
  forall (responses : nat -> fetched) (maxAttempts : nat),
    (forall n,
        waitForReady responses maxAttempts = (Ok tt, n) <->
        exists j, n = S j /\ j < maxAttempts /\
                  answers_ok (responses j) = true /\
                  forall j', j' < j -> answers_ok (responses j') = false) /\
    (forall n,
        waitForReady responses maxAttempts = (Throws, n) <->
        n = maxAttempts /\
        forall j, j < maxAttempts -> answers_ok (responses j) = false).
Proof.
  intros responses maxAttempts. unfold waitForReady.
  destruct (poll_spec responses maxAttempts 0)
    as [(j & Hj & Hok & Hbefore & ->)|[Hnone ->]].
  - split; intros n; split.
    + intros [= <-]. exists j. split; [done|]. split; [lia|]. split; [done|].
      intros j' Hj'. apply Hbefore. lia.
    + intros (j0 & -> & Hj0 & Hok0 & Hbefore0). f_equal. f_equal.
      destruct (Nat.lt_trichotomy j j0) as [Hlt|[->|Hgt]]; [|done|].
      * rewrite (Hbefore0 j Hlt) in Hok. done.
      * rewrite Hbefore in Hok0 by lia. done.
    + done.
    + intros [_ Hall]. rewrite Hall in Hok by lia. done.
  - split; intros n; split.
    + done.
    + intros (j0 & _ & Hj0 & Hok0 & _). rewrite Hnone in Hok0 by lia. done.
    + intros [= <-]. split; [done|]. intros j Hj. apply Hnone. lia.
    + intros [-> _]. done.
Qed.

Example waitForReady_third_attempt :
  let responses i := if i <? 2 then Failed else Responded (negb (i =? 2)) in
  waitForReady responses 20 = (Ok tt, 4) /\
  waitForReady responses 3 = (Throws, 3) /\
  waitForReady responses 0 = (Throws, 0).
Proof. by vm_compute. Qed.

(** ** The path of a request ([handleRequest]) *)

(** [s.substring(0, s.indexOf(c))] when [c] occurs in [s], and [s]
    otherwise. *)
Fixpoint before_char (c : ascii) (s : string) : string :=
  match s with
  | EmptyString => EmptyString
  | String a s' => if Ascii.eqb a c then EmptyString else String a (before_char c s')
  end.

(** The first steps of [handleRequest]: the path that is looked up
    under the [dist] folder for the request URL [url] ([None] when the
    request has none), before it is normalised. *)
Definition requestPath (url : option string) : string :=
  let filePath :=
    match url with
    | Some u =>
        if String.eqb u "/" then "/index.html"
        else if String.eqb u EmptyString then "/index.html"
        else u
    | None => "/index.html"
    end in
  let filePath := before_char "?" filePath in
  before_char "#" filePath.

Lemma includes_char_cons c a s :
  Str.includes (String a s) (String c EmptyString)
  = Ascii.eqb a c || Str.includes s (String c EmptyString).
Proof. simpl. by destruct (Ascii.eqb a c). Qed.

Lemma before_char_free c s :
  Str.includes (before_char c s) (String c EmptyString) = false.
Proof.
  induction s as [|a s IH]; [done|]. cbn [before_char].
  destruct (Ascii.eqb a c) eqn:E; [done|]. by rewrite includes_char_cons, E, IH.
Qed.

Lemma before_char_keeps d c s :
  Str.includes s (String d EmptyString) = false ->
  Str.includes (before_char c s) (String d EmptyString) = false.
Proof.
  induction s as [|a s IH]; [done|]. rewrite includes_char_cons.
  intros [Ha Hs]%orb_false_iff. cbn [before_char].
  destruct (Ascii.eqb a c); [done|]. by rewrite includes_char_cons, Ha, IH.
Qed.

Lemma before_char_id c s :
  Str.includes s (String c EmptyString) = false -> before_char c s = s.
Proof.
  induction s as [|a s IH]; [done|]. rewrite includes_char_cons.
  intros [Ha Hs]%orb_false_iff. cbn [before_char]. by rewrite Ha, IH.
Qed.

Lemma before_char_app c p rest :
  Str.includes p (String c EmptyString) = false ->
  before_char c (p +:+ String c rest) = p.
Proof.
  induction p as [|a p IH].
  - intros _. rewrite StrFacts.app_nil_l. cbn [before_char]. by rewrite Ascii.eqb_refl.
  - rewrite includes_char_cons. intros [Ha Hp]%orb_false_iff.
    rewrite StrFacts.app_cons. cbn [before_char]. by rewrite Ha, IH.
Qed.

Lemma before_char_app_free c p r :
  Str.includes p (String c EmptyString) = false ->
  before_char c (p +:+ r) = p +:+ before_char c r.
Proof.
  induction p as [|a p IH]; [done|]. rewrite includes_char_cons.
  intros [Ha Hp]%orb_false_iff.
  rewrite !StrFacts.app_cons. cbn [before_char]. by rewrite Ha, IH.
Qed.

(** The file that a request is served from does not depend on its query
    string or fragment: the path never holds a question mark or a hash
    sign, and a path followed by a query, by a fragment, or by both is
    that path. *)
Theorem requestPath_ignores_query_and_fragment :
  (forall url : option string,
      Str.includes (requestPath url) "?" = false /\
      Str.includes (requestPath url) "#" = false) /\
  (forall path query fragment : string,
      Str.includes path "?" = false ->
      Str.includes path "#" = false ->
      requestPath (Some (path +:+ String "?" query)) = path /\
      requestPath (Some (path +:+ String "#" fragment)) = path /\
      requestPath (Some (path +:+ String "?" (query +:+ String "#" fragment))) = path).
Proof.
  split.
  - intros url. unfold requestPath. split.
    + apply before_char_keeps, before_char_free.
    + apply before_char_free.
  - intros path query fragment Hq Hh.
    assert (forall sep rest,
               sep <> "/"%char ->
               requestPath (Some (path +:+ String sep rest))
               = before_char "#" (before_char "?" (path +:+ String sep rest))) as Hreq.
    { intros sep rest Hsep. unfold requestPath.
      assert (String.eqb (path +:+ String sep rest) "/" = false) as ->.
      { apply String.eqb_neq. destruct path as [|a [|??]]; [|done|done].
        rewrite StrFacts.app_nil_l. intros [= -> _]. done. }
      assert (String.eqb (path +:+ String sep rest) EmptyString = false) as ->; [|done].
      apply String.eqb_neq. by destruct path. }
    rewrite !Hreq by done. split; [|split].
    + by rewrite (before_char_app _ _ _ Hq), (before_char_id _ _ Hh).
    + rewrite (before_char_app_free "?" path _ Hq). cbn [before_char Ascii.eqb Bool.eqb].
      by apply before_char_app.
    + by rewrite (before_char_app _ _ _ Hq), (before_char_id _ _ Hh).
Qed.

Example requestPath_samples :
  requestPath None = "/index.html" /\
  requestPath (Some "/") = "/index.html" /\
  requestPath (Some "/static/app.js?v=3#top") = "/static/app.js" /\
  requestPath (Some "/#/31337/tx/0xaa?x") = "/" /\
  requestPath (Some "/?x=1") = "/".
Proof. by vm_compute. Qed.

(** ** The value of the injected string literal *)

(** The value of a hexadecimal digit. *)
Definition hex_value (c : ascii) : option N :=
  let n := N_of_ascii c in
  if ((48 <=? n) && (n <=? 57))%N then Some (n - 48)%N
  else if ((97 <=? n) && (n <=? 102))%N then Some (n - 87)%N
  else if ((65 <=? n) && (n <=? 70))%N then Some (n - 55)%N
  else None.

(** The character of an escape [\uXXXX], when it is an 8-bit one. *)
Definition unicode_escape (h1 h2 h3 h4 : ascii) : option ascii :=
  match hex_value h1, hex_value h2, hex_value h3, hex_value h4 with
  | Some 0%N, Some 0%N, Some a, Some b => Some (ascii_of_N (16 * a + b))
  | _, _, _, _ => None
  end.

(** The string that the text [s] between the quotes of a JavaScript
    string literal denotes, for the escapes that [JSON.stringify] and the
    escape of [injectArtifactsScript] produce; [None] when [s] is not
    such a text (a raw quote or line break, an unknown escape). *)
Fixpoint literal_value (s : string) : option string :=
  match s with
  | EmptyString => Some EmptyString
  | String c rest =>
      if Ascii.eqb c Json.backslash then
        match rest with
        | String d rest' =>
            if Ascii.eqb d Json.dquote || Ascii.eqb d Json.backslash || Ascii.eqb d "/"
            then String d <$> literal_value rest'
            else if Ascii.eqb d "b" then String (ascii_of_nat 8) <$> literal_value rest'
            else if Ascii.eqb d "t" then String (ascii_of_nat 9) <$> literal_value rest'
            else if Ascii.eqb d "n" then String (ascii_of_nat 10) <$> literal_value rest'
            else if Ascii.eqb d "f" then String (ascii_of_nat 12) <$> literal_value rest'
            else if Ascii.eqb d "r" then String (ascii_of_nat 13) <$> literal_value rest'
            else if Ascii.eqb d "u" then
              match rest' with
              | String h1 (String h2 (String h3 (String h4 rest''))) =>
                  match unicode_escape h1 h2 h3 h4 with
                  | Some a => String a <$> literal_value rest''
                  | None => None
                  end
              | _ => None
              end
            else None
        | EmptyString => None
        end
      else if Ascii.eqb c Json.dquote then None
      else if Ascii.eqb c (ascii_of_nat 10) || Ascii.eqb c (ascii_of_nat 13) then None
      else String c <$> literal_value rest
  end.

Module LiteralFacts.

(** Decoding undoes the escape of one character. *)
Lemma literal_value_escape_char c w :
  literal_value (Json.escape_char c +:+ w) = String c <$> literal_value w.
Proof. by destruct c as [[] [] [] [] [] [] [] []]. Qed.

Lemma literal_value_quote_body s :
  literal_value (Json.quote_body s) = Some s.
Proof.
  induction s as [|c s IH]; [done|]. simpl.
  by rewrite literal_value_escape_char, IH.
Qed.







Section Replace.

Variable rep : string.





End Replace.




End LiteralFacts.

Module QuoteFacts.







End QuoteFacts.


(** A closing script tag in capitals reaches the browser in lower case. *)
Example injected_literal_lowers_tags :
  literal_value
    (Str.replaceAll_ci closing escaped (Json.quote_body "a </SCRIPT> b"))
  = Some "a </script> b".
Proof. by vm_compute. Qed.
